(** * Bitcoin ingestion and transfer extraction of the multichain indexer

    A shallow embedding of the Go packages [internal/rpc/bitcoin] and
    [internal/indexer] (file [bitcoin.go]), with the properties the
    specification states about them.

    Conventions of the embedding:
    - Go strings are [string]; slices are [list]; a nil pointer is [None].
    - [int64] fields are [Z]; [uint64] and [uint32] fields are [N]; the
      heights [GetBlocks] counts through are [Z] with the [uint64]
      wrap-around written out.
    - Go maps are stdpp [gmap]s; a [range] over a map visits the entries in
      an order the runtime picks, which the embedding takes as an argument.
    - BTC amounts arrive as JSON decimal numbers.  The code carries them in a
      [float64] and turns them into a [decimal.Decimal] with
      [decimal.NewFromFloat] before any arithmetic; the only operations on
      the [float64] itself are the sign tests [v <= 0] and [v > 0], which
      agree with the sign of the decimal.  The embedding therefore carries an
      amount as the rational number it denotes ([Qc]), and
      [decimal.Decimal] arithmetic, being exact, is [Qc] arithmetic. *)

From Stdlib Require Import QArith Qcanon.
From stdpp Require Import base numbers list strings gmap pretty vector.

Local Open Scope string_scope.
Local Open Scope list_scope.

(** ** Data model ([types.go]) *)

Abbreviation Decimal := Qc (only parsing).
Abbreviation float64 := Qc (only parsing).

(** [decimal.NewFromFloat]: the decimal denoted by the carried amount. *)
Definition NewFromFloat (v : float64) : Decimal := v.

(** [decimal.Zero] *)
Definition Zero : Decimal := 0%Qc.

Definition IsZero (d : Decimal) : bool := bool_decide (d = 0%Qc).
Definition IsNegative (d : Decimal) : bool := bool_decide (d < 0)%Qc.

Record ScriptSig := mkScriptSig {
  ScriptSig_Asm : string;
  ScriptSig_Hex : string
}.

Record ScriptPubKey := mkScriptPubKey {
  Spk_Asm : string;
  Spk_Hex : string;
  Spk_ReqSigs : Z;
  Spk_Type : string;
  Spk_Address : string;
  Spk_Addresses : list string
}.

Record PrevOut := mkPrevOut {
  PrevOut_Value : float64;
  PrevOut_ScriptPubKey : ScriptPubKey
}.

Record Vin := mkVin {
  Vin_Txid : string;
  Vin_Vout : N;
  Vin_ScriptSig : option ScriptSig;
  Vin_Sequence : N;
  Vin_TxInWitness : list string;
  Vin_Coinbase : string;
  Vin_PrevOut : option PrevOut
}.

Record Vout := mkVout {
  Vout_Value : float64;
  Vout_N : N;
  Vout_ScriptPubKey : ScriptPubKey
}.

Record Transaction := mkTransaction {
  Tx_Txid : string;
  Tx_Hash : string;
  Tx_Version : Z;
  Tx_Size : Z;
  Tx_Vsize : Z;
  Tx_Weight : Z;
  Tx_Locktime : N;
  Tx_Vin : list Vin;
  Tx_Vout : list Vout;
  Tx_Hex : string;
  Tx_BlockHash : string;
  Tx_Confirmations : Z;
  Tx_Time : Z;
  Tx_BlockTime : Z
}.

Record Block := mkBlock {
  Block_Hash : string;
  Block_Confirmations : Z;
  Block_Height : Z;
  Block_Version : Z;
  Block_VersionHex : string;
  Block_MerkleRoot : string;
  Block_Time : Z;
  Block_MedianTime : Z;
  Block_Nonce : N;
  Block_Bits : string;
  Block_Difficulty : float64;
  Block_ChainWork : string;
  Block_NTx : Z;
  Block_PreviousBlockHash : string;
  Block_NextBlockHash : string;
  Block_StrippedSize : Z;
  Block_Size : Z;
  Block_Weight : Z;
  Block_Tx : list Transaction
}.

(** ** Address helpers ([ExtractAddresses]) *)

(** [ExtractAddresses]: the single [address] first, when it is not empty,
    then the whole [addresses] slice appended as it is. *)
Definition ExtractAddresses (spk : ScriptPubKey) : list string :=
  let addresses := [] in
  let addresses :=
    if bool_decide (Spk_Address spk ≠ "")
    then addresses ++ [Spk_Address spk] else addresses in
  let addresses :=
    if bool_decide (0 < length (Spk_Addresses spk))%nat
    then addresses ++ Spk_Addresses spk else addresses in
  addresses.

(** The reading of "skipping empties" as a filter over both fields. *)
Definition nonempty_addresses (spk : ScriptPubKey) : list string :=
  filter (λ a, a ≠ "") (Spk_Address spk :: Spk_Addresses spk).

Definition spk_of (address : string) (addresses : list string) : ScriptPubKey :=
  mkScriptPubKey "" "" 0 "" address addresses.

(** ** Transaction predicates and totals ([tx.go]) *)

(** [IsCoinbase]: [len(tx.Vin) > 0 && tx.Vin[0].Coinbase != ""] *)
Definition IsCoinbase (tx : Transaction) : bool :=
  bool_decide (0 < length (Tx_Vin tx))%nat &&
  match Tx_Vin tx with
  | vin0 :: _ => bool_decide (Vin_Coinbase vin0 ≠ "")
  | [] => false
  end.

(** The loop of [HasPrevOutData]: return true at the first [vin] whose
    [PrevOut] is not nil. *)
Fixpoint anyPrevOut (vins : list Vin) : bool :=
  match vins with
  | [] => false
  | vin :: rest =>
      match Vin_PrevOut vin with
      | Some _ => true
      | None => anyPrevOut rest
      end
  end.

Definition HasPrevOutData (tx : Transaction) : bool :=
  if IsCoinbase tx then false else anyPrevOut (Tx_Vin tx).

Definition CalculateTotalOutput (tx : Transaction) : Decimal :=
  foldl (λ total vout,
           if bool_decide (0 < Vout_Value vout)%Qc
           then (total + NewFromFloat (Vout_Value vout))%Qc
           else total)
        Zero (Tx_Vout tx).

Definition CalculateTotalInput (tx : Transaction) : Decimal :=
  foldl (λ total vin,
           match Vin_PrevOut vin with
           | Some po =>
               if bool_decide (0 < PrevOut_Value po)%Qc
               then (total + NewFromFloat (PrevOut_Value po))%Qc
               else total
           | None => total
           end)
        Zero (Tx_Vin tx).

(** [CalculateFee] (fee computation file) *)
Definition CalculateFee (tx : Transaction) : Decimal :=
  if IsCoinbase tx then Zero
  else if negb (HasPrevOutData tx) then Zero
  else
    let totalInput := CalculateTotalInput tx in
    let totalOutput := CalculateTotalOutput tx in
    let fee := (totalInput - totalOutput)%Qc in
    if IsNegative fee then Zero else fee.

(** [ExtractInputAddresses]: [addressSet] is the Go [map[string]bool] used
    as a set, [addresses] the slice that keeps first-seen order. *)
Definition ExtractInputAddresses (tx : Transaction) : list string :=
  snd (foldl (λ '(addressSet, addresses) vin,
                if bool_decide (Vin_Coinbase vin ≠ "")
                then (addressSet, addresses)
                else
                  match Vin_PrevOut vin with
                  | Some po =>
                      foldl (λ '(addressSet, addresses) addr,
                               if bool_decide (addr ∈ addressSet)
                               then (addressSet, addresses)
                               else ({[addr]} ∪ addressSet, addresses ++ [addr]))
                            (addressSet, addresses)
                            (ExtractAddresses (PrevOut_ScriptPubKey po))
                  | None => (addressSet, addresses)
                  end)
             ((∅ : gset string), []) (Tx_Vin tx)).

(** One [vout] of [GroupOutputsByAddress]: every extracted address is
    credited with the whole value of the output. *)
Definition groupVout (outputs : gmap string Decimal) (vout : Vout)
    : gmap string Decimal :=
  if bool_decide (Vout_Value vout ≤ 0)%Qc then outputs
  else
    let addresses := ExtractAddresses (Vout_ScriptPubKey vout) in
    if bool_decide (length addresses = 0%nat) then outputs
    else
      foldl (λ outputs addr,
               let value := NewFromFloat (Vout_Value vout) in
               match outputs !! addr with
               | Some existing => <[addr := (existing + value)%Qc]> outputs
               | None => <[addr := value]> outputs
               end)
            outputs addresses.

Definition GroupOutputsByAddress (tx : Transaction) : gmap string Decimal :=
  foldl groupVout ∅ (Tx_Vout tx).

(** ** Normalized transfers *)

Module constant.
(** Modelled from the spec: the transaction kinds of [pkg/common/constant],
    of which the extractor uses [mining] and [transfer]. *)
Inductive TxnType := TxnTypeMining | TxnTypeTransfer.
End constant.

Module types.
(** Modelled from the spec: the emitted record of [pkg/common/types], with
    the fields the extractor fills in.  [Amount] is the canonical decimal
    string of a [decimal.Decimal]; it is carried as the decimal it prints. *)
Record Transaction := mkTransaction {
  TxHash : string;
  NetworkId : string;
  BlockNumber : N;
  FromAddress : string;
  ToAddress : string;
  AssetAddress : string;
  Amount : Decimal;
  TxType : constant.TxnType;
  TxFee : Decimal;
  Timestamp : N
}.

(** The assignment [tr.TxFee = fee]. *)
Definition setTxFee (tr : Transaction) (fee : Decimal) : Transaction :=
  mkTransaction (TxHash tr) (NetworkId tr) (BlockNumber tr) (FromAddress tr)
    (ToAddress tr) (AssetAddress tr) (Amount tr) (TxType tr) fee (Timestamp tr).
End types.

(** [fmt.Sprintf("%s+%d_more", first, n)] *)
Definition compositeFrom (first : string) (n : nat) : string :=
  first +:+ "+" +:+ pretty n +:+ "_more".

(** A [range] over a Go map yields every entry once, in an order the
    runtime chooses. *)
Definition rangeOrder (m : gmap string Decimal) (order : list (string * Decimal))
    : Prop :=
  order ≡ₚ map_to_list m.

(** Coinbase branch of [ExtractTransfers]. *)
Definition coinbaseTransfers (tx : Transaction) (networkID : string)
    (blockNum timestamp : N) : list types.Transaction :=
  foldl (λ transfers vout,
           if bool_decide (Vout_Value vout ≤ 0)%Qc then transfers
           else
             let addresses := ExtractAddresses (Vout_ScriptPubKey vout) in
             if bool_decide (length addresses = 0%nat) then transfers
             else
               foldl (λ transfers addr,
                        transfers ++
                        [types.mkTransaction (Tx_Txid tx) networkID blockNum
                           "coinbase" addr ""
                           (NewFromFloat (Vout_Value vout))
                           constant.TxnTypeMining Zero timestamp])
                     transfers addresses)
        [] (Tx_Vout tx).

(** Body of the loop taken when input addresses are known.  The state is
    ([feeAssigned], [transfers]).  [inputAddresses[0]] is read under the
    guard [len(inputAddresses) > 0] of the enclosing branch. *)
Definition knownInputsStep (tx : Transaction) (networkID : string)
    (blockNum timestamp : N) (fee : Decimal) (inputAddresses : list string)
    (st : bool * list types.Transaction) (entry : string * Decimal)
    : bool * list types.Transaction :=
  let '(feeAssigned, transfers) := st in
  let '(addr, value) := entry in
  let isChange :=
    existsb (λ inputAddr, bool_decide (addr = inputAddr)) inputAddresses in
  let fromAddr := default "" (head inputAddresses) in
  let fromAddr :=
    if bool_decide (1 < length inputAddresses)%nat
    then compositeFrom (default "" (head inputAddresses))
           (length inputAddresses - 1)
    else fromAddr in
  let txType := constant.TxnTypeTransfer in
  let txType := if isChange then constant.TxnTypeTransfer else txType in
  let tr :=
    types.mkTransaction (Tx_Txid tx) networkID blockNum fromAddr addr ""
      value txType Zero timestamp in
  if negb feeAssigned && negb isChange && negb (IsZero fee)
  then (true, transfers ++ [types.setTxFee tr fee])
  else (feeAssigned, transfers ++ [tr]).

(** Body of the fallback loop (no input address known). *)
Definition unknownInputsStep (tx : Transaction) (networkID : string)
    (blockNum timestamp : N) (fee : Decimal)
    (st : bool * list types.Transaction) (entry : string * Decimal)
    : bool * list types.Transaction :=
  let '(feeAssigned, transfers) := st in
  let '(addr, value) := entry in
  let tr :=
    types.mkTransaction (Tx_Txid tx) networkID blockNum "" addr ""
      value constant.TxnTypeTransfer Zero timestamp in
  if negb feeAssigned && negb (IsZero fee)
  then (true, transfers ++ [types.setTxFee tr fee])
  else (feeAssigned, transfers ++ [tr]).

(** [ExtractTransfers], run with [order] as the sequence in which
    [range outputsByAddress] yields the entries of
    [tx.GroupOutputsByAddress()].  (The [totalInput] the Go code sums in
    the known-inputs branch is never read and is left out.) *)
Definition ExtractTransfers (order : list (string * Decimal))
    (tx : Transaction) (networkID : string) (blockNum timestamp : N)
    (fee : Decimal) : list types.Transaction :=
  if IsCoinbase tx then coinbaseTransfers tx networkID blockNum timestamp
  else
    let inputAddresses := ExtractInputAddresses tx in
    if bool_decide (0 < length inputAddresses)%nat
    then
      snd (foldl (knownInputsStep tx networkID blockNum timestamp fee
                    inputAddresses)
                 (false, []) order)
    else
      snd (foldl (unknownInputsStep tx networkID blockNum timestamp fee)
                 (false, []) order).

(** Sum of a list of decimals. *)
Definition sumDecimal (l : list Decimal) : Decimal := foldr Qcplus 0%Qc l.

(** ** Bech32 address validation *)

Definition MainnetBech32HRP : string := "bc".
Definition TestnetBech32HRP : string := "tb".

(** A Go [byte], carried as its value. *)
Abbreviation byte := N (only parsing).

Section Bech32.
(** The two functions of the external package [btcutil/bech32] the
    validator calls.  [None] stands for a non-nil [err]. *)
Variable bech32_Decode : string → option (string * list byte).
Variable bech32_ConvertBits : list byte → N → N → bool → option (list byte).

(** [IsValidBech32Address].  [data[0]] and [data[1:]] are read after the
    [len(data) == 0] test has returned. *)
Definition IsValidBech32Address (addr : string) (isTestnet : bool) : bool :=
  let expectedHRP := if isTestnet then TestnetBech32HRP else MainnetBech32HRP in
  match bech32_Decode addr with
  | None => false
  | Some (hrp, data) =>
      if bool_decide (hrp ≠ expectedHRP) then false
      else if bool_decide (length data = 0%nat) then false
      else
        match bech32_ConvertBits (drop 1 data) 5 8 false with
        | None => false
        | Some converted =>
            let witnessVersion := default 0%N (head data) in
            let witnessProgram := converted in
            if bool_decide (witnessVersion = 0%N) &&
               (bool_decide (length witnessProgram ≠ 20%nat) &&
                bool_decide (length witnessProgram ≠ 32%nat))
            then false
            else if bool_decide (witnessVersion = 1%N) &&
                    bool_decide (length witnessProgram ≠ 32%nat)
            then false
            else true
        end
  end.
End Bech32.

(** ** JSON-RPC client and the Bitcoin façade *)

(** [RPCError] of the JSON-RPC layer. *)
Record RPCError := mkRPCError {
  RPCError_Code : Z;
  RPCError_Message : string
}.

(** A Go [error] value as the façade sees it: a structured RPC error or a
    transport failure out of [CallRPC], or an error built with
    [fmt.Errorf]. *)
Inductive error :=
| ErrRPC (e : RPCError)
| ErrTransport (msg : string)
| Errorf (msg : string).

Inductive result (A : Type) :=
| Ok (a : A)
| Err (e : error).
Arguments Ok {A} a.
Arguments Err {A} e.

(** The [any] values passed as RPC parameters. *)
Inductive Param :=
| PString (s : string)
| PInt (n : Z)
| PBool (b : bool).

Record RPCCall := mkCall {
  Call_Method : string;
  Call_Params : list Param
}.

(** [json.RawMessage] *)
Abbreviation RawMessage := string (only parsing).

(** A computation of the client: it extends the trace of the calls issued
    so far and returns a value or an error. *)
Definition RPC (A : Type) : Type := list RPCCall → list RPCCall * result A.

Global Instance RPC_ret : MRet RPC := λ A a trace, (trace, Ok a).
Global Instance RPC_bind : MBind RPC := λ A B k m trace,
  match m trace with
  | (trace', Ok a) => k a trace'
  | (trace', Err e) => (trace', Err e)
  end.

Definition failRPC {A} (e : error) : RPC A := λ trace, (trace, Err e).

(** [v, err := m; if err != nil { onErr } ; onOk]: branch on the error
    value of a call. *)
Definition caseRPC {A B} (m : RPC A) (onErr : error → RPC B) (onOk : A → RPC B)
    : RPC B :=
  λ trace,
    match m trace with
    | (trace', Ok a) => onOk a trace'
    | (trace', Err e) => onErr e trace'
    end.

Section Client.
(** The node behind [BaseClient.CallRPC]: its answer to a call may depend
    on the calls issued before it. *)
Variable node : list RPCCall → RPCCall → result RawMessage.
(** [json.Unmarshal] into a [Block] and into a [string]. *)
Variable unmarshalBlock : RawMessage → option Block.
Variable unmarshalString : RawMessage → option string.

Definition CallRPC (method : string) (params : list Param) : RPC RawMessage :=
  λ trace,
    let call := mkCall method params in
    (trace ++ [call], node trace call).

Definition GetBlockHash (height : N) : RPC string :=
  resp ← CallRPC "getblockhash" [PInt (Z.of_N height)];
  match unmarshalString resp with
  | Some hash => mret hash
  | None => failRPC (Errorf "decode getblockhash")
  end.

Definition GetBlockVerbose (hash : string) : RPC Block :=
  resp ← CallRPC "getblock" [PString hash; PInt 2];
  match unmarshalBlock resp with
  | Some blk => mret blk
  | None => failRPC (Errorf "decode getblock")
  end.

(** [GetBlockWithPrevOut]: when the verbosity-3 call fails, the function
    itself goes on with [GetBlockVerbose]. *)
Definition GetBlockWithPrevOut (hash : string) : RPC Block :=
  caseRPC (CallRPC "getblock" [PString hash; PInt 3])
    (λ err, GetBlockVerbose hash)
    (λ resp,
       match unmarshalBlock resp with
       | Some blk => mret blk
       | None => failRPC (Errorf "decode getblock")
       end).

(** The operation [GetBlock] of the orchestrator hands to
    [failover.ExecuteWithRetry]: hash, then verbosity 3, then verbosity 2
    when that returned an error. *)
Definition fetchBlock (number : N) : RPC Block :=
  hash ← GetBlockHash number;
  caseRPC (GetBlockWithPrevOut hash)
    (λ err, GetBlockVerbose hash)
    (λ bb, mret bb).
End Client.

(** ** PrevOut enrichment *)

(** A Go computation that may end in a run-time panic (here: a slice index
    out of range). *)
Inductive run (A : Type) :=
| Returned (a : A)
| Panicked.
Arguments Returned {A} a.
Arguments Panicked {A}.

Global Instance run_ret : MRet run := λ A a, Returned a.
Global Instance run_bind : MBind run := λ A B k m,
  match m with
  | Returned a => k a
  | Panicked => Panicked
  end.

(** [s[i]] on a slice. *)
Definition indexSlice {A} (s : list A) (i : nat) : run A :=
  match s !! i with
  | Some x => Returned x
  | None => Panicked
  end.

(** The in-place assignments of the enrichment, on the records. *)
Definition setVinPrevOut (vin : Vin) (prevOut : option PrevOut) : Vin :=
  mkVin (Vin_Txid vin) (Vin_Vout vin) (Vin_ScriptSig vin) (Vin_Sequence vin)
    (Vin_TxInWitness vin) (Vin_Coinbase vin) prevOut.

Definition setTxVin (tx : Transaction) (vins : list Vin) : Transaction :=
  mkTransaction (Tx_Txid tx) (Tx_Hash tx) (Tx_Version tx) (Tx_Size tx)
    (Tx_Vsize tx) (Tx_Weight tx) (Tx_Locktime tx) vins (Tx_Vout tx) (Tx_Hex tx)
    (Tx_BlockHash tx) (Tx_Confirmations tx) (Tx_Time tx) (Tx_BlockTime tx).

Definition setBlockTx (block : Block) (txs : list Transaction) : Block :=
  mkBlock (Block_Hash block) (Block_Confirmations block) (Block_Height block)
    (Block_Version block) (Block_VersionHex block) (Block_MerkleRoot block)
    (Block_Time block) (Block_MedianTime block) (Block_Nonce block)
    (Block_Bits block) (Block_Difficulty block) (Block_ChainWork block)
    (Block_NTx block) (Block_PreviousBlockHash block)
    (Block_NextBlockHash block) (Block_StrippedSize block) (Block_Size block)
    (Block_Weight block) txs.

Section Enrichment.
(** [GetRawTransaction i j txid verbosity] is the outcome of the call
    [c.GetRawTransaction(ctx, txid, verbosity)] issued for input [j] of
    transaction [i].  The per-transaction tasks run concurrently, each on
    the inputs of its own transaction only, and [wg.Wait()] joins them
    before the function returns; indexing the outcomes by the place of the
    call covers every schedule and every node behaviour.  [int] has 64
    bits, so [int(vin.Vout)] is the value of the [uint32]. *)
Variable GetRawTransaction : nat → nat → string → Z → result Transaction.

(** Body of the loop over [transaction.Vin], for input [j] of transaction
    [i]. *)
Definition enrichVin (i j : nat) (vin : Vin) : run Vin :=
  if bool_decide (Vin_Txid vin = "") || bool_decide (Vin_Coinbase vin ≠ "")
  then Returned vin
  else
    match GetRawTransaction i j (Vin_Txid vin) 1 with
    | Err err => Returned vin
    | Ok prevTx =>
        if bool_decide (N.to_nat (Vin_Vout vin) < length (Tx_Vout prevTx))%nat
        then
          prevOut ← indexSlice (Tx_Vout prevTx) (N.to_nat (Vin_Vout vin));
          Returned (setVinPrevOut vin
                      (Some (mkPrevOut (Vout_Value prevOut)
                                       (Vout_ScriptPubKey prevOut))))
        else Returned vin
    end.

Fixpoint enrichVins (i j : nat) (vins : list Vin) : run (list Vin) :=
  match vins with
  | [] => Returned []
  | vin :: rest =>
      vin' ← enrichVin i j vin;
      rest' ← enrichVins i (S j) rest;
      Returned (vin' :: rest')
  end.

(** Body of the loop over [block.Tx], for transaction [i]. *)
Definition enrichTx (i : nat) (tx : Transaction) : run Transaction :=
  if IsCoinbase tx then Returned tx
  else if HasPrevOutData tx then Returned tx
  else
    vins ← enrichVins i 0 (Tx_Vin tx);
    Returned (setTxVin tx vins).

Fixpoint enrichTxs (i : nat) (txs : list Transaction) : run (list Transaction) :=
  match txs with
  | [] => Returned []
  | tx :: rest =>
      tx' ← enrichTx i tx;
      rest' ← enrichTxs (S i) rest;
      Returned (tx' :: rest')
  end.

(** [EnrichBlockWithPrevOuts]: the block behind the pointer after the
    call, and the returned error. *)
Definition EnrichBlockWithPrevOuts (block : option Block)
    : run (option Block * option error) :=
  match block with
  | None => Returned (None, Some (Errorf "block is nil"))
  | Some blk =>
      txs ← enrichTxs 0 (Block_Tx blk);
      Returned (Some (setBlockTx blk txs), None)
  end.
End Enrichment.

(** ** Orchestrator: [GetBlocks] and [GetBlocksByNumbers] *)

(** [n++] on a [uint64]. *)
Definition incr64 (n : Z) : Z := (n + 1) mod 2 ^ 64.

Definition maxUint64 : Z := 2 ^ 64 - 1.

(** [for n := from; n <= to; n++ { nums = append(nums, n) }], with [fuel]
    bounding the number of tests of the loop condition; [None] when the
    loop has not ended within [fuel].  Slices are unbounded here: the
    capacity hint of [make] and the memory a long range takes are not
    modelled. *)
Fixpoint heightsLoop (fuel : nat) (n to : Z) (nums : list Z) : option (list Z) :=
  match fuel with
  | O => None
  | S fuel =>
      if bool_decide (n ≤ to)%Z
      then heightsLoop fuel (incr64 n) to (nums ++ [n])
      else Some nums
  end.

Section Orchestrator.
(** [BlockResult] is declared elsewhere in the package; the worker pool of
    [GetBlocksByNumbers] (everything after the empty-list test) is taken as
    a whole.  A nil slice is [None]. *)
Variable BlockResult : Type.
Variable workerPool : list Z → option (list BlockResult) * option error.

Definition GetBlocksByNumbers (nums : list Z)
    : option (list BlockResult) * option error :=
  if bool_decide (length nums = 0%nat) then (None, None)
  else workerPool nums.

(** [GetBlocks]; [None] when it has not returned within [fuel]. *)
Definition GetBlocks (fuel : nat) (from to : Z)
    : option (option (list BlockResult) * option error) :=
  if bool_decide (to < from)%Z then Some (None, Some (Errorf "invalid range"))
  else
    nums ← heightsLoop fuel from to [];
    Some (GetBlocksByNumbers nums).
End Orchestrator.

(** ** Reference notions the statements are phrased with *)

(** The positive [prevOut] values of the inputs that carry a [prevOut]. *)
Definition inputValues (tx : Transaction) : list Decimal :=
  Tx_Vin tx ≫= λ vin,
    match Vin_PrevOut vin with
    | Some po =>
        if bool_decide (0 < PrevOut_Value po)%Qc then [PrevOut_Value po] else []
    | None => []
    end.

(** The positive output values. *)
Definition outputValues (tx : Transaction) : list Decimal :=
  Tx_Vout tx ≫= λ vout,
    if bool_decide (0 < Vout_Value vout)%Qc then [Vout_Value vout] else [].

(** [max(0, d)] *)
Definition clampZero (d : Decimal) : Decimal :=
  if bool_decide (d < 0)%Qc then 0%Qc else d.

(** C1 as the specification words it: zero for a coinbase or as soon as one
    input lacks [prevOut], the clamped difference of the totals otherwise. *)
Definition strictFee (tx : Transaction) : Decimal :=
  if IsCoinbase tx then 0%Qc
  else if bool_decide (Exists (λ vin, Vin_PrevOut vin = None) (Tx_Vin tx))
       then 0%Qc
       else clampZero (sumDecimal (inputValues tx) - sumDecimal (outputValues tx))%Qc.

(** [a] is an output address of [tx]: an extracted address of an output
    with positive value. *)
Definition outputAddress (tx : Transaction) (a : string) : Prop :=
  ∃ vout, vout ∈ Tx_Vout tx ∧ (0 < Vout_Value vout)%Qc ∧
          a ∈ ExtractAddresses (Vout_ScriptPubKey vout).

(** The outputs of [tx] as the extractor credits them: one entry per
    extracted address of every output with positive value, each with the
    whole value of the output. *)
Definition creditedOutputs (tx : Transaction) : list (string * Decimal) :=
  Tx_Vout tx ≫= λ vout,
    if bool_decide (0 < Vout_Value vout)%Qc
    then (λ addr, (addr, Vout_Value vout)) <$>
           ExtractAddresses (Vout_ScriptPubKey vout)
    else [].

(** C4's right-hand side as the specification words it: the values of the
    outputs with positive value and at least one extracted address, each
    counted once. *)
Definition addressBearingTotal (tx : Transaction) : Decimal :=
  sumDecimal
    (Tx_Vout tx ≫= λ vout,
       if bool_decide ((0 < Vout_Value vout)%Qc ∧
                       ExtractAddresses (Vout_ScriptPubKey vout) ≠ [])
       then [Vout_Value vout] else []).

(** Sum of the values held in a grouped-outputs map. *)
Definition mapTotal (m : gmap string Decimal) : Decimal :=
  sumDecimal (snd <$> map_to_list m).

(** The record the known-inputs loop of [ExtractTransfers] builds for an
    entry of the grouped outputs, before any fee is put on it. *)
Definition plainTransfer (tx : Transaction) (networkID : string)
    (blockNum timestamp : N) (inputs : list string)
    (entry : string * Decimal) : types.Transaction :=
  types.mkTransaction (Tx_Txid tx) networkID blockNum
    (if bool_decide (1 < length inputs)%nat
     then compositeFrom (default "" (head inputs)) (length inputs - 1)
     else default "" (head inputs))
    entry.1 "" entry.2 constant.TxnTypeTransfer 0%Qc timestamp.

(** The [getblock] call for [hash] at a verbosity. *)
Definition getblockCall (hash : string) (verbosity : Z) : RPCCall :=
  mkCall "getblock" [PString hash; PInt verbosity].

(** C5 as the specification words it: when the node rejects the
    verbosity-3 call, [GetBlockWithPrevOut] hands that error back having
    issued that one call only. *)
Definition returnsVerbosityError
    (node : list RPCCall → RPCCall → result RawMessage)
    (unmarshalBlock : RawMessage → option Block)
    (hash : string) (trace : list RPCCall) : Prop :=
  ∀ err, node trace (getblockCall hash 3) = Err err →
         GetBlockWithPrevOut node unmarshalBlock hash trace
           = (trace ++ [getblockCall hash 3], Err err).

(** [vin'] is [vin] in every field but [PrevOut]. *)
Definition sameVinExceptPrevOut (vin vin' : Vin) : Prop :=
  Vin_Txid vin' = Vin_Txid vin ∧
  Vin_Vout vin' = Vin_Vout vin ∧
  Vin_ScriptSig vin' = Vin_ScriptSig vin ∧
  Vin_Sequence vin' = Vin_Sequence vin ∧
  Vin_TxInWitness vin' = Vin_TxInWitness vin ∧
  Vin_Coinbase vin' = Vin_Coinbase vin.

(** [tx'] is [tx] in every field but [Vin]. *)
Definition sameTxExceptVin (tx tx' : Transaction) : Prop :=
  Tx_Txid tx' = Tx_Txid tx ∧
  Tx_Hash tx' = Tx_Hash tx ∧
  Tx_Version tx' = Tx_Version tx ∧
  Tx_Size tx' = Tx_Size tx ∧
  Tx_Vsize tx' = Tx_Vsize tx ∧
  Tx_Weight tx' = Tx_Weight tx ∧
  Tx_Locktime tx' = Tx_Locktime tx ∧
  Tx_Vout tx' = Tx_Vout tx ∧
  Tx_Hex tx' = Tx_Hex tx ∧
  Tx_BlockHash tx' = Tx_BlockHash tx ∧
  Tx_Confirmations tx' = Tx_Confirmations tx ∧
  Tx_Time tx' = Tx_Time tx ∧
  Tx_BlockTime tx' = Tx_BlockTime tx.

(** [block'] has the header fields of [block]. *)
Definition sameHeader (block block' : Block) : Prop :=
  Block_Hash block' = Block_Hash block ∧
  Block_Confirmations block' = Block_Confirmations block ∧
  Block_Height block' = Block_Height block ∧
  Block_Version block' = Block_Version block ∧
  Block_VersionHex block' = Block_VersionHex block ∧
  Block_MerkleRoot block' = Block_MerkleRoot block ∧
  Block_Time block' = Block_Time block ∧
  Block_MedianTime block' = Block_MedianTime block ∧
  Block_Nonce block' = Block_Nonce block ∧
  Block_Bits block' = Block_Bits block ∧
  Block_Difficulty block' = Block_Difficulty block ∧
  Block_ChainWork block' = Block_ChainWork block ∧
  Block_NTx block' = Block_NTx block ∧
  Block_PreviousBlockHash block' = Block_PreviousBlockHash block ∧
  Block_NextBlockHash block' = Block_NextBlockHash block ∧
  Block_StrippedSize block' = Block_StrippedSize block ∧
  Block_Size block' = Block_Size block ∧
  Block_Weight block' = Block_Weight block.

(** What the enrichment may do to one input, given the outcome [reply] of
    its [GetRawTransaction] call: leave it as it is, or set [PrevOut] from
    the output that [vin.Vout] indexes in the fetched transaction, which
    must hold that index; a failed call and an index out of range leave
    the input as it is. *)
Definition guardedAssignment (reply : result Transaction) (vin vin' : Vin)
    : Prop :=
  (vin' = vin ∨
   ∃ prevTx prevOut,
     reply = Ok prevTx ∧
     (N.to_nat (Vin_Vout vin) < length (Tx_Vout prevTx))%nat ∧
     Tx_Vout prevTx !! N.to_nat (Vin_Vout vin) = Some prevOut ∧
     vin' = setVinPrevOut vin
              (Some (mkPrevOut (Vout_Value prevOut) (Vout_ScriptPubKey prevOut)))) ∧
  (∀ err, reply = Err err → vin' = vin) ∧
  (∀ prevTx, reply = Ok prevTx →
             (length (Tx_Vout prevTx) ≤ N.to_nat (Vin_Vout vin))%nat →
             vin' = vin).

(** The frame of the enrichment on one transaction. *)
Definition txFrame (tx tx' : Transaction) : Prop :=
  sameTxExceptVin tx tx' ∧
  Forall2 sameVinExceptPrevOut (Tx_Vin tx) (Tx_Vin tx') ∧
  (IsCoinbase tx = true ∨ HasPrevOutData tx = true → tx' = tx).

(** ** Sample data *)

Definition dec (n : Z) (d : positive) : Decimal := Q2Qc (n # d).

Definition vinSpend (prev : option PrevOut) : Vin :=
  mkVin "aa" 0 None 0 [] "" prev.

Definition vinCoinbase : Vin := mkVin "" 0 None 0 [] "04ffff001d" None.

Definition prevOutOf (v : Decimal) (addr : string) : PrevOut :=
  mkPrevOut v (spk_of addr []).

Definition voutOf (v : Decimal) (addr : string) (addrs : list string) : Vout :=
  mkVout v 0 (spk_of addr addrs).

Definition txOf (vins : list Vin) (vouts : list Vout) : Transaction :=
  mkTransaction "t1" "" 2 0 0 0 0 vins vouts "" "" 0 0 0.

(** Two inputs, only the first with [prevOut] (2 BTC); one output of 1 BTC. *)
Definition txPartialPrevOut : Transaction :=
  txOf [vinSpend (Some (prevOutOf (dec 2 1) "A")); vinSpend None]
       [voutOf (dec 1 1) "B" []].

(** One input of 1 BTC from A; 0.3 BTC to B and 0.69 BTC back to A. *)
Definition txSpend : Transaction :=
  txOf [vinSpend (Some (prevOutOf (dec 1 1) "A"))]
       [voutOf (dec 3 10) "B" []; voutOf (dec 69 100) "A" []].

(** A coinbase paying 6.25 BTC to one address. *)
Definition txCoinbase : Transaction :=
  txOf [vinCoinbase] [voutOf (dec 625 100) "M" []].

(** One input of 2 BTC from A; one 1 BTC output to a two-key multisig. *)
Definition txMultisig : Transaction :=
  txOf [vinSpend (Some (prevOutOf (dec 2 1) "A"))]
       [voutOf (dec 1 1) "" ["K1"; "K2"]].


Global Instance Param_eq_dec : EqDecision Param.
Proof. solve_decision. Defined.
Global Instance RPCCall_eq_dec : EqDecision RPCCall.
Proof. solve_decision. Defined.

Definition sampleBlock : Block :=
  mkBlock "00ab" 1 800000 536870912 "20000000" "4d5e" 1700000000 1699999000
    12345 "17053894" (dec 1 1) "00" 2 "00aa" "" 0 0 0 [txCoinbase; txSpend].

(** A node older than Bitcoin Core 24: verbosity 3 is refused, verbosity 2
    is answered. *)
Definition nodeWithoutVerbosity3 (trace : list RPCCall) (call : RPCCall)
    : result RawMessage :=
  if decide (call = getblockCall "00ab" 3)
  then Err (ErrRPC (mkRPCError (-8) "verbosity 3 not supported"))
  else if decide (call = getblockCall "00ab" 2) then Ok "block-00ab"
  else Err (ErrTransport "unexpected call").

Definition unmarshalSample (raw : RawMessage) : option Block :=
  if decide (raw = "block-00ab") then Some sampleBlock else None.

(** ** Further notions for the transfer extractor *)

(** [a] is an input address of [tx]: an extracted address of the [prevOut]
    of an input that is not a coinbase input. *)
Definition inputAddress (tx : Transaction) (a : string) : Prop :=
  ∃ vin po, vin ∈ Tx_Vin tx ∧ Vin_Coinbase vin = "" ∧
            Vin_PrevOut vin = Some po ∧
            a ∈ ExtractAddresses (PrevOut_ScriptPubKey po).

(** The values credited to address [a] by the outputs of [tx], in output
    order. *)
Definition creditedTo (tx : Transaction) (a : string) : list Decimal :=
  snd <$> filter (λ entry, entry.1 = a) (creditedOutputs tx).

(** An optional running total after crediting the values of [l]. *)
Definition creditOption (total : option Decimal) (l : list Decimal)
    : option Decimal :=
  match l with
  | [] => total
  | _ :: _ => Some (default 0%Qc total + sumDecimal l)%Qc
  end.

(** The sender the known-inputs and fallback loops write: nothing, the
    only input address, or the first one with the number of the others. *)
Definition senderOf (inputs : list string) : string :=
  match inputs with
  | [] => ""
  | [a] => a
  | a :: _ => compositeFrom a (length inputs - 1)
  end.

(** ** Fee rate and unit helpers (fee computation file) *)

Definition BTC_TO_SATOSHI : Z := 100000000.

(** [decimal.NewFromInt] *)
Definition NewFromInt (n : Z) : Decimal := Qc_of_Z n.

(** [Decimal.GreaterThanOrEqual] *)
Definition GreaterThanOrEqual (d d2 : Decimal) : bool := bool_decide (d2 ≤ d)%Qc.

Definition BTCToSatoshi (btc : Decimal) : Decimal :=
  (btc * NewFromInt BTC_TO_SATOSHI)%Qc.

Section FeeRate.
(** [Decimal.Div] of the external decimal package: it panics on a zero
    divisor and otherwise returns the quotient rounded to the package's
    division precision, which [divRound] stands for. *)
Variable divRound : Decimal → Decimal → Decimal.

Definition Div (d d2 : Decimal) : run Decimal :=
  if bool_decide (d2 = 0%Qc) then Panicked else Returned (divRound d d2).

Definition CalculateFeeRate (tx : Transaction) : run Decimal :=
  let fee := CalculateFee tx in
  if IsZero fee || bool_decide (Tx_Vsize tx = 0%Z) then Returned Zero
  else
    let feeSatoshis := (fee * NewFromInt BTC_TO_SATOSHI)%Qc in
    let vsize := NewFromInt (Tx_Vsize tx) in
    Div feeSatoshis vsize.

Definition SatoshiToBTC (satoshi : Decimal) : run Decimal :=
  Div satoshi (NewFromInt BTC_TO_SATOSHI).
End FeeRate.

Definition EstimateFeePriority (feeRateSatPerVByte : Decimal) : string :=
  if GreaterThanOrEqual feeRateSatPerVByte (NewFromInt 100) then "high"
  else if GreaterThanOrEqual feeRateSatPerVByte (NewFromInt 50) then "medium"
  else if GreaterThanOrEqual feeRateSatPerVByte (NewFromInt 10) then "low"
  else "very_low".

(** The four priorities, lowest first. *)
Definition priorityRank (p : string) : nat :=
  if decide (p = "high") then 3
  else if decide (p = "medium") then 2
  else if decide (p = "low") then 1
  else 0.

(** ** Orchestrator: block conversion *)

(** Modelled from the spec: the normalized block of [pkg/common/types],
    with the fields [processBlock] fills in. *)
Record NormalizedBlock := mkNormalizedBlock {
  NB_Number : N;
  NB_Hash : string;
  NB_ParentHash : string;
  NB_Timestamp : N;
  NB_Transactions : list types.Transaction
}.

(** The conversion [uint64(x)] of an [int64]. *)
Definition uint64_of_int64 (x : Z) : N := Z.to_N (x mod 2 ^ 64).

(** [blockHasPrevOutData] *)
Definition blockHasPrevOutData (blk : option Block) : bool :=
  match blk with
  | None => false
  | Some blk => existsb HasPrevOutData (Block_Tx blk)
  end.

(** The loop of [processBlock] over [blk.Tx], from transaction [i] on;
    [rangeOrders i] is the order in which the grouped outputs of
    transaction [i] are iterated. *)
Fixpoint processTxs (networkId : string)
    (rangeOrders : nat → list (string * Decimal)) (height time : N)
    (i : nat) (txs : list Transaction) (transactions : list types.Transaction)
    : list types.Transaction :=
  match txs with
  | [] => transactions
  | tx :: rest =>
      let fee := CalculateFee tx in
      let transfers :=
        ExtractTransfers (rangeOrders i) tx networkId height time fee in
      processTxs networkId rangeOrders height time (S i) rest
        (transactions ++ transfers)
  end.

(** [processBlock]; [networkId] is [b.GetNetworkId()]. *)
Definition processBlock (networkId : string)
    (rangeOrders : nat → list (string * Decimal)) (blk : option Block)
    : option NormalizedBlock :=
  match blk with
  | None => None
  | Some blk =>
      Some (mkNormalizedBlock
              (uint64_of_int64 (Block_Height blk))
              (Block_Hash blk)
              (Block_PreviousBlockHash blk)
              (uint64_of_int64 (Block_Time blk))
              (processTxs networkId rangeOrders
                 (uint64_of_int64 (Block_Height blk))
                 (uint64_of_int64 (Block_Time blk))
                 0 (Block_Tx blk) []))
  end.

(** Every transaction of [blk] is iterated in an admissible order. *)
Definition rangeOrdersFor (blk : Block)
    (rangeOrders : nat → list (string * Decimal)) : Prop :=
  ∀ i tx, Block_Tx blk !! i = Some tx →
          rangeOrder (GroupOutputsByAddress tx) (rangeOrders i).

(** The fees [CalculateFee] gives the transactions of a block, and the
    values their outputs are credited with. *)
Definition blockFees (blk : Block) : list Decimal :=
  CalculateFee <$> Block_Tx blk.

Definition blockCredits (blk : Block) : list Decimal :=
  Block_Tx blk ≫= λ tx, snd <$> creditedOutputs tx.

(** The iteration orders [map_to_list] gives for the transactions of
    [sampleBlock]. *)
Definition sampleOrders (i : nat) : list (string * Decimal) :=
  match Block_Tx sampleBlock !! i with
  | Some tx => map_to_list (GroupOutputsByAddress tx)
  | None => []
  end.

(** ** Further notions for the enrichment *)

(** The input the enrichment makes of [vin] when its call returned
    [prevTx] and [vin.Vout] indexes the output [prevOut] of it. *)
Definition resolvedVin (vin : Vin) (prevOut : Vout) : Vin :=
  setVinPrevOut vin
    (Some (mkPrevOut (Vout_Value prevOut) (Vout_ScriptPubKey prevOut))).

(** Every input of transaction [i] can be resolved: it names a previous
    transaction, is no coinbase input, and its call returns a transaction
    that has the output it refers to. *)
Definition allInputsResolvable
    (GetRawTransaction : nat → nat → string → Z → result Transaction)
    (i : nat) (tx : Transaction) : Prop :=
  ∀ j vin, Tx_Vin tx !! j = Some vin →
    Vin_Txid vin ≠ "" ∧ Vin_Coinbase vin = "" ∧
    ∃ prevTx, GetRawTransaction i j (Vin_Txid vin) 1%Z = Ok prevTx ∧
              (N.to_nat (Vin_Vout vin) < length (Tx_Vout prevTx))%nat.

(** A spend of output 1 of an earlier transaction, fetched without
    [prevOut]. *)
Definition txUnresolved : Transaction :=
  txOf [mkVin "t1" 1 None 0 [] "" None] [voutOf (dec 1 2) "C" []].

Definition blockUnresolved : Block :=
  mkBlock "00ac" 1 800001 536870912 "20000000" "4d5f" 1700000600 1699999600
    12346 "17053894" (dec 1 1) "00" 2 "00ab" "" 0 0 0 [txCoinbase; txUnresolved].

(** A node that knows the transaction [txSpend] under every id, and one
    that answers no [getrawtransaction]. *)
Definition nodeKnowsSpend (i j : nat) (txid : string) (verbosity : Z)
    : result Transaction := Ok txSpend.

Definition nodeUnreachable (i j : nat) (txid : string) (verbosity : Z)
    : result Transaction := Err (ErrTransport "connection refused").

(** ** The other methods of the façade *)

Record TxOut := mkTxOut {
  TxOut_BestBlock : string;
  TxOut_Confirmations : Z;
  TxOut_Value : float64;
  TxOut_ScriptPubKey : ScriptPubKey;
  TxOut_Coinbase : bool
}.

Record DecodedRawTransaction := mkDecodedRawTransaction {
  Decoded_Txid : string;
  Decoded_Hash : string;
  Decoded_Size : Z;
  Decoded_Vsize : Z;
  Decoded_Weight : Z;
  Decoded_Version : Z;
  Decoded_Locktime : N;
  Decoded_Vin : list Vin;
  Decoded_Vout : list Vout
}.

Section ClientMethods.
Variable node : list RPCCall → RPCCall → result RawMessage.
(** [json.Unmarshal] into the result types. *)
Variable unmarshalUint64 : RawMessage → option N.
Variable unmarshalTransaction : RawMessage → option Transaction.
Variable unmarshalDecoded : RawMessage → option DecodedRawTransaction.
Variable unmarshalTxOut : RawMessage → option TxOut.

Definition GetBlockCount : RPC N :=
  resp ← CallRPC node "getblockcount" [];
  match unmarshalUint64 resp with
  | Some n => mret n
  | None => failRPC (Errorf "decode getblockcount")
  end.

(** [GetRawTransaction]: the call is issued before the verbosity is
    looked at. *)
Definition GetRawTransaction (txid : string) (verbosity : Z) : RPC Transaction :=
  resp ← CallRPC node "getrawtransaction" [PString txid; PInt verbosity];
  if bool_decide (verbosity = 0%Z)
  then failRPC (Errorf "hex format not supported, use verbosity >= 1")
  else
    match unmarshalTransaction resp with
    | Some tx => mret tx
    | None => failRPC (Errorf "decode getrawtransaction")
    end.

Definition DecodeRawTransaction (hexTx : string) : RPC DecodedRawTransaction :=
  resp ← CallRPC node "decoderawtransaction" [PString hexTx];
  match unmarshalDecoded resp with
  | Some decoded => mret decoded
  | None => failRPC (Errorf "decode decoderawtransaction")
  end.

(** [GetTxOut]: a nil result without error when the node answers
    [null]. *)
Definition GetTxOut (txid : string) (vout : N) (includeMempool : bool)
    : RPC (option TxOut) :=
  resp ← CallRPC node "gettxout"
           [PString txid; PInt (Z.of_N vout); PBool includeMempool];
  if bool_decide (resp = "null") then mret None
  else
    match unmarshalTxOut resp with
    | Some txOut => mret (Some txOut)
    | None => failRPC (Errorf "decode gettxout")
    end.
End ClientMethods.

(** The [getblockhash] call for a height. *)
Definition getblockhashCall (height : N) : RPCCall :=
  mkCall "getblockhash" [PInt (Z.of_N height)].

(** A node whose answers do not depend on the calls issued before. *)
Definition stateless (node : list RPCCall → RPCCall → result RawMessage)
    (answer : RPCCall → result RawMessage) : Prop :=
  ∀ trace call, node trace call = answer call.

Definition answerWithoutVerbosity3 (call : RPCCall) : result RawMessage :=
  if decide (call = getblockhashCall 800000) then Ok "hash-00ab"
  else nodeWithoutVerbosity3 [] call.

Definition nodeSample (trace : list RPCCall) (call : RPCCall)
    : result RawMessage := answerWithoutVerbosity3 call.

Definition unmarshalSampleHash (raw : RawMessage) : option string :=
  if decide (raw = "hash-00ab") then Some "00ab" else None.

(** ** Address codec *)

(** [AddressType] and its constants. *)
Abbreviation AddressType := string (only parsing).

Definition AddressTypeP2PKH : AddressType := "p2pkh".
Definition AddressTypeP2SH : AddressType := "p2sh".
Definition AddressTypeP2WPKH : AddressType := "p2wpkh".
Definition AddressTypeP2WSH : AddressType := "p2wsh".
Definition AddressTypeP2TR : AddressType := "p2tr".
Definition AddressTypeUnknown : AddressType := "unknown".
Definition AddressTypeNonStandard : AddressType := "nonstandard".
Definition AddressTypeNullData : AddressType := "nulldata".
Definition AddressTypeMultisig : AddressType := "multisig".
Definition AddressTypePubkey : AddressType := "pubkey".
Definition AddressTypeWitnessV1 : AddressType := "witness_v1_taproot".
Definition AddressTypeWitnessUnknown : AddressType := "witness_unknown".

Definition MainnetP2PKHPrefix : byte := 0.
Definition MainnetP2SHPrefix : byte := 5.
Definition TestnetP2PKHPrefix : byte := 111.
Definition TestnetP2SHPrefix : byte := 196.

(** [IsNullDataOutput] and [IsMultisigOutput] *)
Definition IsNullDataOutput (spk : ScriptPubKey) : bool :=
  bool_decide (Spk_Type spk = "nulldata") || bool_decide (Spk_Type spk = "null_data").

Definition IsMultisigOutput (spk : ScriptPubKey) : bool :=
  bool_decide (Spk_Type spk = "multisig").

(** The slice expressions [s[:hi]] and [s[lo:]].  Go panics when the bound
    is out of range; for [s[:hi]] the bound it tests is the capacity, which
    is at least the length, so panicking above the length is the stricter
    reading. *)
Definition sliceTo {A} (s : list A) (hi : nat) : run (list A) :=
  if bool_decide (hi ≤ length s)%nat then Returned (take hi s) else Panicked.

Definition sliceFrom {A} (s : list A) (lo : nat) : run (list A) :=
  if bool_decide (lo ≤ length s)%nat then Returned (drop lo s) else Panicked.

(** The checksum loop of [IsValidBase58Address] over the indices [indices]:
    [if checksum[i] != expectedChecksum[i] { return false }], and [true]
    after the last index. *)
Fixpoint checksumLoop (checksum expectedChecksum : list byte) (indices : list nat)
    : run bool :=
  match indices with
  | [] => Returned true
  | i :: rest =>
      match indexSlice checksum i, indexSlice expectedChecksum i with
      | Returned c, Returned e =>
          if bool_decide (c ≠ e) then Returned false
          else checksumLoop checksum expectedChecksum rest
      | _, _ => Panicked
      end
  end.

Section AddressCodec.
(** The functions of the external packages the codec calls: [bech32] and
    [base58] of [btcutil], [sha256.Sum256] (a 32-byte array), and
    [strings.TrimSpace] and [strings.ToLower]. *)
Variable bech32_Decode : string → option (string * list byte).
Variable bech32_ConvertBits : list byte → N → N → bool → option (list byte).
Variable base58_Decode : string → list byte.
Variable sha256_Sum256 : list byte → vec byte 32.
Variable TrimSpace : string → string.
Variable ToLower : string → string.

(** [IsValidBase58Address].  [decoded[0]], [decoded[:21]] and
    [decoded[21:]] are read after the length test; the last loop compares
    the four checksum bytes one by one. *)
Definition IsValidBase58Address (addr : string) (isTestnet : bool) : bool :=
  let decoded := base58_Decode addr in
  if bool_decide (length decoded ≠ 25%nat) then false
  else
    let version := default 0%N (head decoded) in
    let payload := take 21 decoded in
    let checksum := drop 21 decoded in
    let validVersion :=
      if isTestnet
      then bool_decide (version = TestnetP2PKHPrefix) ||
           bool_decide (version = TestnetP2SHPrefix)
      else bool_decide (version = MainnetP2PKHPrefix) ||
           bool_decide (version = MainnetP2SHPrefix) in
    if negb validVersion then false
    else
      let hash := sha256_Sum256 payload in
      let hash := sha256_Sum256 (vec_to_list hash) in
      let expectedChecksum := take 4 (vec_to_list hash) in
      forallb (λ i, bool_decide (checksum !! i = expectedChecksum !! i))
              (seq 0 4).

(** [IsValidBase58Address] once more, now with every index and slice
    expression of the source through the operations that panic out of
    range: [decoded[0]], [decoded[:21]], [decoded[21:]], [hash[:4]],
    [checksum[i]] and [expectedChecksum[i]] for [i] from 0 to 3. *)
Definition IsValidBase58Address_run (addr : string) (isTestnet : bool)
    : run bool :=
  let decoded := base58_Decode addr in
  if bool_decide (length decoded ≠ 25%nat) then Returned false
  else
    version ← indexSlice decoded 0;
    payload ← sliceTo decoded 21;
    checksum ← sliceFrom decoded 21;
    let validVersion :=
      if isTestnet
      then bool_decide (version = TestnetP2PKHPrefix) ||
           bool_decide (version = TestnetP2SHPrefix)
      else bool_decide (version = MainnetP2PKHPrefix) ||
           bool_decide (version = MainnetP2SHPrefix) in
    if negb validVersion then Returned false
    else
      let hash := sha256_Sum256 payload in
      let hash := sha256_Sum256 (vec_to_list hash) in
      expectedChecksum ← sliceTo (vec_to_list hash) 4;
      checksumLoop checksum expectedChecksum (seq 0 4).

(** [IsValidAddress] *)
Definition IsValidAddress (addr : string) (isTestnet : bool) : bool :=
  if bool_decide (addr = "") then false
  else if String.prefix "bc1" addr || String.prefix "tb1" addr
  then IsValidBech32Address bech32_Decode bech32_ConvertBits addr isTestnet
  else IsValidBase58Address addr isTestnet.

(** The Base58 part of [DetectAddressType], which the function reaches
    for an address without Bech32 prefix and also when the [switch] on
    the witness version ends without a [return]. *)
Definition detectBase58 (addr : string) (isTestnet : bool) : AddressType :=
  let decoded := base58_Decode addr in
  if bool_decide (length decoded = 25%nat)
  then
    let version := default 0%N (head decoded) in
    if isTestnet
    then
      if bool_decide (version = TestnetP2PKHPrefix) then AddressTypeP2PKH
      else if bool_decide (version = TestnetP2SHPrefix) then AddressTypeP2SH
      else AddressTypeUnknown
    else
      if bool_decide (version = MainnetP2PKHPrefix) then AddressTypeP2PKH
      else if bool_decide (version = MainnetP2SHPrefix) then AddressTypeP2SH
      else AddressTypeUnknown
  else AddressTypeUnknown.

(** [DetectAddressType] *)
Definition DetectAddressType (addr : string) (isTestnet : bool) : AddressType :=
  if bool_decide (addr = "") then AddressTypeUnknown
  else if String.prefix "bc1" addr || String.prefix "tb1" addr
  then
    let expectedHRP :=
      if isTestnet then TestnetBech32HRP else MainnetBech32HRP in
    match bech32_Decode addr with
    | None => AddressTypeUnknown
    | Some (hrp, data) =>
        if bool_decide (hrp ≠ expectedHRP) || bool_decide (length data = 0%nat)
        then AddressTypeUnknown
        else
          let witnessVersion := default 0%N (head data) in
          match bech32_ConvertBits (drop 1 data) 5 8 false with
          | None => AddressTypeUnknown
          | Some converted =>
              if bool_decide (witnessVersion = 0%N)
              then
                if bool_decide (length converted = 20%nat) then AddressTypeP2WPKH
                else if bool_decide (length converted = 32%nat)
                     then AddressTypeP2WSH
                     else detectBase58 addr isTestnet
              else if bool_decide (witnessVersion = 1%N)
              then
                if bool_decide (length converted = 32%nat) then AddressTypeP2TR
                else detectBase58 addr isTestnet
              else AddressTypeWitnessUnknown
          end
    end
  else detectBase58 addr isTestnet.

(** [NormalizeAddress] *)
Definition NormalizeAddress (addr : string) : string * option error :=
  let cleaned := TrimSpace addr in
  if bool_decide (cleaned = "") then ("", Some (Errorf "empty address"))
  else if negb (IsValidAddress cleaned false) && negb (IsValidAddress cleaned true)
  then ("", Some (Errorf "invalid bitcoin address"))
  else (cleaned, None).

(** [ScriptTypeToAddressType] *)
Definition ScriptTypeToAddressType (scriptType : string) : AddressType :=
  let scriptType := ToLower scriptType in
  if bool_decide (scriptType = "pubkeyhash") then AddressTypeP2PKH
  else if bool_decide (scriptType = "scripthash") then AddressTypeP2SH
  else if bool_decide (scriptType = "witness_v0_keyhash") then AddressTypeP2WPKH
  else if bool_decide (scriptType = "witness_v0_scripthash") then AddressTypeP2WSH
  else if bool_decide (scriptType = "witness_v1_taproot") then AddressTypeP2TR
  else if bool_decide (scriptType = "nulldata") ||
          bool_decide (scriptType = "null_data") then AddressTypeNullData
  else if bool_decide (scriptType = "multisig") then AddressTypeMultisig
  else if bool_decide (scriptType = "pubkey") then AddressTypePubkey
  else if bool_decide (scriptType = "nonstandard") then AddressTypeNonStandard
  else if bool_decide (scriptType = "witness_unknown")
       then AddressTypeWitnessUnknown
  else AddressTypeUnknown.
End AddressCodec.

(** The version bytes [IsValidBase58Address] accepts on a network. *)
Definition base58Versions (isTestnet : bool) : list byte :=
  if isTestnet then [TestnetP2PKHPrefix; TestnetP2SHPrefix]
  else [MainnetP2PKHPrefix; MainnetP2SHPrefix].

(** Stand-ins for the external decoders, a hash and the string functions,
    to run the codec on a sample. *)
Definition sampleBech32Decode (addr : string) : option (string * list byte) :=
  Some ("bc", [0%N]).
Definition sampleConvertBits (data : list byte) (from to : N) (pad : bool)
    : option (list byte) := Some (replicate 20 0%N).
Definition sampleBase58Decode (addr : string) : list byte := [].
Definition sampleSum256 (data : list byte) : vec byte 32 := vreplicate 32 0%N.
Definition sampleIdentity (s : string) : string := s.

(** ** Hex helpers *)

(** [s[k]] with an [int] index: a negative index panics as an index past
    the end does. *)
Definition indexInt {A} (s : list A) (k : Z) : run A :=
  if bool_decide (k < 0)%Z then Panicked else indexSlice s (Z.to_nat k).

(** The loop of [ReverseHex]:
    [for i, j := 0, len(data)-1; i < j; i, j = i+1, j-1 { swap }], with
    [fuel] bounding the number of tests of the loop condition; [None] when
    the loop has not ended within [fuel]. *)
Fixpoint reverseLoop (fuel : nat) (i j : Z) (data : list byte)
    : option (run (list byte)) :=
  match fuel with
  | O => None
  | S fuel =>
      if bool_decide (i < j)%Z
      then
        match indexInt data j, indexInt data i with
        | Returned dj, Returned di =>
            reverseLoop fuel (i + 1) (j - 1)
              (<[Z.to_nat j := di]> (<[Z.to_nat i := dj]> data))
        | _, _ => Some Panicked
        end
      else Some (Returned data)
  end.

Section Hex.
(** [hex.DecodeString] ([None] for a non-nil [err]) and
    [hex.EncodeToString] of the Go library. *)
Variable hex_DecodeString : string → option (list byte).
Variable hex_EncodeToString : list byte → string.

Definition ReverseHex (fuel : nat) (s : string) : option (run string) :=
  match hex_DecodeString s with
  | None => Some (Returned s)
  | Some data =>
      match reverseLoop fuel 0 (Z.of_nat (length data) - 1) data with
      | None => None
      | Some Panicked => Some Panicked
      | Some (Returned data) => Some (Returned (hex_EncodeToString data))
      end
  end.

End Hex.

(** Stand-ins for the hex codec on two strings, to run [ReverseHex] on a
    sample. *)
Definition sampleHexDecode (s : string) : option (list byte) :=
  if decide (s = "abcd") then Some [171%N; 205%N]
  else if decide (s = "cdab") then Some [205%N; 171%N]
  else None.

Definition sampleHexEncode (data : list byte) : string :=
  if decide (data = [171%N; 205%N]) then "abcd"
  else if decide (data = [205%N; 171%N]) then "cdab"
  else "".

(** ** A transaction the enrichment resolves only in part *)

(** Two inputs spending [p1:0] and [p2:0], fetched without [prevOut]; one
    output of 1 BTC to B. *)
Definition txTwoInputs : Transaction :=
  txOf [mkVin "p1" 0 None 0 [] "" None; mkVin "p2" 0 None 0 [] "" None]
       [voutOf (dec 1 1) "B" []].

(** The transaction [p1]: its output 0 pays 2 BTC to A. *)
Definition txFunding : Transaction :=
  mkTransaction "p1" "" 2 0 0 0 0 [vinCoinbase] [voutOf (dec 2 1) "A" []]
    "" "" 0 0 0.

(** A node that returns [p1] and fails on every other
    [getrawtransaction]. *)
Definition nodeAnswersFirstOnly (i j : nat) (txid : string) (verbosity : Z)
    : result Transaction :=
  if decide (txid = "p1") then Ok txFunding
  else Err (ErrTransport "connection reset").

Definition blockTwoInputs : Block :=
  mkBlock "00ad" 1 800002 536870912 "20000000" "4d60" 1700001200 1700000200
    12347 "17053894" (dec 1 1) "00" 2 "00ac" "" 0 0 0 [txCoinbase; txTwoInputs].

(** [txTwoInputs] with the first input resolved and the second not. *)
Definition txHalfResolved : Transaction :=
  txOf [mkVin "p1" 0 None 0 [] "" (Some (prevOutOf (dec 2 1) "A"));
        mkVin "p2" 0 None 0 [] "" None]
       [voutOf (dec 1 1) "B" []].

Definition blockHalfResolved : Block :=
  setBlockTx blockTwoInputs [txCoinbase; txHalfResolved].

(** The iteration orders [map_to_list] gives for the transactions of
    [blockHalfResolved]. *)
Definition halfResolvedOrders (i : nat) : list (string * Decimal) :=
  match Block_Tx blockHalfResolved !! i with
  | Some tx => map_to_list (GroupOutputsByAddress tx)
  | None => []
  end.

(** * Properties *)

(** ** Properties of [ExtractAddresses] *)

Lemma ExtractAddresses_unfold spk :
  ExtractAddresses spk =
    (if bool_decide (Spk_Address spk ≠ "") then [Spk_Address spk] else [])
      ++ Spk_Addresses spk.
Proof.
  unfold ExtractAddresses.
  destruct (bool_decide (Spk_Address spk ≠ "")); case_bool_decide as Hlen;
    try done; destruct (Spk_Addresses spk); simpl in *; try done; lia.
Qed.

(** C6, as the specification words it, fails: an empty string inside
    [addresses] is returned. *)
Lemma C6_empty_entry_kept :
  ExtractAddresses (spk_of "" [""]) = [""] ∧
  nonempty_addresses (spk_of "" [""]) = [] ∧
  ¬ (∀ spk, ExtractAddresses spk = nonempty_addresses spk).
Proof.
  split; [reflexivity|]. split; [reflexivity|].
  intros H. specialize (H (spk_of "" [""])). discriminate H.
Qed.

(** C6 (amended): [ExtractAddresses spk] is [spk.Address], left out when it
    is the empty string, followed by every entry of [spk.Addresses] in
    order; entries of [spk.Addresses] are not filtered. *)
Theorem C6_ExtractAddresses_shape spk :
  ExtractAddresses spk =
    filter (λ a, a ≠ "") [Spk_Address spk] ++ Spk_Addresses spk.
Proof.
  rewrite ExtractAddresses_unfold.
  rewrite filter_cons, filter_nil.
  destruct (decide (Spk_Address spk ≠ "")) as [Hne|He].
  - by rewrite bool_decide_eq_true_2.
  - by rewrite bool_decide_eq_false_2.
Qed.

(** When [addresses] holds no empty string the two readings agree. *)
Lemma ExtractAddresses_nonempty spk :
  "" ∉ Spk_Addresses spk →
  ExtractAddresses spk = nonempty_addresses spk.
Proof.
  intros Hno. rewrite ExtractAddresses_unfold. unfold nonempty_addresses.
  rewrite (filter_cons _ (Spk_Address spk)).
  assert (Hid : filter (λ a : string, a ≠ "") (Spk_Addresses spk) = Spk_Addresses spk).
  { induction (Spk_Addresses spk) as [|a l IH]; [done|].
    rewrite filter_cons. apply not_elem_of_cons in Hno as [Ha Hl].
    destruct (decide (a ≠ "")) as [|Hn]; [by rewrite IH|].
    exfalso. apply Hn. by intros ->. }
  rewrite Hid. destruct (decide (Spk_Address spk ≠ "")).
  - by rewrite bool_decide_eq_true_2.
  - by rewrite bool_decide_eq_false_2.
Qed.

(** ** Decimal sums *)

Lemma sumDecimal_app l1 l2 :
  sumDecimal (l1 ++ l2) = (sumDecimal l1 + sumDecimal l2)%Qc.
Proof.
  induction l1 as [|x l1 IH]; simpl.
  - by rewrite Qcplus_0_l.
  - rewrite IH. ring.
Qed.

Lemma sumDecimal_cons x l : sumDecimal (x :: l) = (x + sumDecimal l)%Qc.
Proof. reflexivity. Qed.

Lemma sumDecimal_perm l1 l2 : l1 ≡ₚ l2 → sumDecimal l1 = sumDecimal l2.
Proof.
  induction 1 as [|x l1 l2 _ IH|x y l|l1 l2 l3 _ IH1 _ IH2]; simpl.
  - done.
  - by rewrite IH.
  - ring.
  - by rewrite IH1.
Qed.

Lemma sumDecimal_nonneg l :
  Forall (λ v, 0 ≤ v)%Qc l → (0 ≤ sumDecimal l)%Qc.
Proof.
  induction 1 as [|x l Hx _ IH]; simpl; [done|].
  rewrite <- (Qcplus_0_l 0). by apply Qcplus_le_compat.
Qed.

Lemma dec_eq (x y : Qc) : Qeq (this x) (this y) → x = y.
Proof. apply Qc_is_canon. Qed.

(** ** Fee computation *)

Lemma foldl_add_bind {A} (f : A → list Qc) (g : Qc → A → Qc) l acc :
  (∀ total x, g total x = (total + sumDecimal (f x))%Qc) →
  foldl g acc l = (acc + sumDecimal (l ≫= f))%Qc.
Proof.
  intros Hg. revert acc. induction l as [|x l IH]; intros acc.
  - simpl. by rewrite Qcplus_0_r.
  - rewrite bind_cons, sumDecimal_app. cbn [foldl]. rewrite IH, Hg. ring.
Qed.

Lemma CalculateTotalInput_sum tx :
  CalculateTotalInput tx = sumDecimal (inputValues tx).
Proof.
  unfold CalculateTotalInput, inputValues, Zero.
  rewrite <- (Qcplus_0_l (sumDecimal _)). apply foldl_add_bind.
  intros total vin. destruct (Vin_PrevOut vin) as [po|]; simpl.
  - case_bool_decide; simpl; unfold NewFromFloat; ring.
  - ring.
Qed.

Lemma CalculateTotalOutput_sum tx :
  CalculateTotalOutput tx = sumDecimal (outputValues tx).
Proof.
  unfold CalculateTotalOutput, outputValues, Zero.
  rewrite <- (Qcplus_0_l (sumDecimal _)). apply foldl_add_bind.
  intros total vout. case_bool_decide; simpl; unfold NewFromFloat; ring.
Qed.

Lemma anyPrevOut_false vins :
  anyPrevOut vins = false ↔ Forall (λ vin, Vin_PrevOut vin = None) vins.
Proof.
  induction vins as [|vin l IH]; simpl.
  - split; [constructor|done].
  - destruct (Vin_PrevOut vin) eqn:E.
    + split; [done|]. inversion 1; congruence.
    + rewrite IH. split; [by constructor|]. by inversion 1.
Qed.

Lemma anyPrevOut_true vins :
  anyPrevOut vins = true ↔ Exists (λ vin, Vin_PrevOut vin ≠ None) vins.
Proof.
  induction vins as [|vin l IH]; simpl.
  - split; [done|]. by inversion 1.
  - destruct (Vin_PrevOut vin) eqn:E.
    + split; [|done]. intros _. left. congruence.
    + rewrite IH. split; [by right|]. inversion 1; [congruence|done].
Qed.

Lemma clampZero_nonneg d : (0 ≤ clampZero d)%Qc.
Proof.
  unfold clampZero. case_bool_decide as Hd; [done|].
  by apply Qcnot_lt_le.
Qed.

Lemma CalculateFee_unfold tx :
  CalculateFee tx =
    if IsCoinbase tx then 0%Qc
    else if anyPrevOut (Tx_Vin tx)
         then clampZero (sumDecimal (inputValues tx) - sumDecimal (outputValues tx))%Qc
         else 0%Qc.
Proof.
  unfold CalculateFee, HasPrevOutData, IsNegative, clampZero, Zero.
  rewrite CalculateTotalInput_sum, CalculateTotalOutput_sum.
  destruct (IsCoinbase tx); [done|].
  destruct (anyPrevOut (Tx_Vin tx)); done.
Qed.

(** C1: the code departs from the strict policy.  With one input resolved
    (2 BTC) and one input without [prevOut], the partial input total is
    used and a fee of 1 BTC is returned where the strict policy gives 0.
    The indexer produces such transactions itself: when the enrichment
    gets the previous transaction of the first input and fails on the
    second, it leaves the transaction resolved in part and returns a nil
    error; the fee of the transaction, 0 before the enrichment, is 1 BTC
    after it, and [processBlock] publishes a transfer carrying that
    fee. *)
Lemma C1_partial_total_used :
  IsCoinbase txPartialPrevOut = false ∧
  Exists (λ vin, Vin_PrevOut vin = None) (Tx_Vin txPartialPrevOut) ∧
  strictFee txPartialPrevOut = 0%Qc ∧
  CalculateFee txPartialPrevOut = 1%Qc ∧
  CalculateFee txPartialPrevOut ≠ strictFee txPartialPrevOut ∧
  CalculateFee txTwoInputs = 0%Qc ∧
  EnrichBlockWithPrevOuts nodeAnswersFirstOnly (Some blockTwoInputs)
    = Returned (Some blockHalfResolved, None) ∧
  Block_Tx blockHalfResolved = [txCoinbase; txHalfResolved] ∧
  IsCoinbase txHalfResolved = false ∧
  Exists (λ vin, Vin_PrevOut vin = None) (Tx_Vin txHalfResolved) ∧
  strictFee txHalfResolved = 0%Qc ∧
  CalculateFee txHalfResolved = 1%Qc ∧
  ∃ nb, processBlock "bitcoin" halfResolvedOrders (Some blockHalfResolved)
          = Some nb ∧
        Exists (λ t, types.ToAddress t = "B" ∧ types.TxFee t = 1%Qc)
               (NB_Transactions nb).
Proof.
  assert (Hs : strictFee txPartialPrevOut = 0%Qc).
  { apply dec_eq. by vm_compute. }
  assert (Hf : CalculateFee txPartialPrevOut = 1%Qc).
  { apply dec_eq. by vm_compute. }
  split; [done|]. split; [right; by left|]. split; [done|]. split; [done|].
  split. { rewrite Hs, Hf. intros H. by apply (f_equal this) in H. }
  split; [apply dec_eq; by vm_compute|].
  split; [reflexivity|]. split; [reflexivity|]. split; [reflexivity|].
  split; [right; by left|].
  split; [apply dec_eq; by vm_compute|].
  split; [apply dec_eq; by vm_compute|].
  eexists. split; [reflexivity|].
  right. left. split; [reflexivity|]. apply dec_eq. by vm_compute.
Qed.

(** What [CalculateFee] computes, case by case: it is never negative; it
    is 0 for a coinbase and when no input carries [prevOut]; for any other
    transaction it is the total of the positive [prevOut] values of the
    inputs that carry one, whether or not every input does, minus the
    total of the positive output values, clamped below at 0. *)
Lemma CalculateFee_cases tx :
  (0 ≤ CalculateFee tx)%Qc ∧
  (IsCoinbase tx = true ∨ Forall (λ vin, Vin_PrevOut vin = None) (Tx_Vin tx) →
     CalculateFee tx = 0%Qc) ∧
  (IsCoinbase tx = false ∧ Exists (λ vin, Vin_PrevOut vin ≠ None) (Tx_Vin tx) →
     CalculateFee tx =
       clampZero (sumDecimal (inputValues tx) - sumDecimal (outputValues tx))%Qc).
Proof.
  rewrite CalculateFee_unfold. split; [|split].
  - destruct (IsCoinbase tx); [done|].
    destruct (anyPrevOut (Tx_Vin tx)); [apply clampZero_nonneg|done].
  - intros [->|Hnone]; [done|]. apply anyPrevOut_false in Hnone as ->.
    by destruct (IsCoinbase tx).
  - intros [-> Hsome]. by apply anyPrevOut_true in Hsome as ->.
Qed.

(** On transactions whose inputs all carry [prevOut] the strict reading and
    the code agree. *)
Lemma CalculateFee_all_resolved tx :
  Forall (λ vin, Vin_PrevOut vin ≠ None) (Tx_Vin tx) →
  CalculateFee tx = strictFee tx.
Proof.
  intros Hall. rewrite CalculateFee_unfold. unfold strictFee.
  destruct (IsCoinbase tx); [done|].
  rewrite bool_decide_eq_false_2.
  2:{ intros Hex. apply Exists_exists in Hex as (vin & Hin & Hnone).
      rewrite Forall_forall in Hall. by apply (Hall vin). }
  destruct (Tx_Vin tx) as [|vin l] eqn:E.
  - simpl. unfold inputValues. rewrite E. simpl.
    unfold clampZero. case_bool_decide as Hneg; [done|].
    assert (Hout : (0 ≤ sumDecimal (outputValues tx))%Qc).
    { apply sumDecimal_nonneg. apply Forall_forall. intros v Hv.
      unfold outputValues in Hv. apply list_elem_of_bind in Hv as (vout & Hv & _).
      case_bool_decide as Hpos; [|by apply elem_of_nil in Hv].
      apply list_elem_of_singleton in Hv as ->. by apply Qclt_le_weak. }
    apply Qcle_lt_or_eq in Hout as [Hlt|Heq].
    + exfalso. apply Hneg. apply Qclt_minus_iff.
      by replace (0 + - (0 - sumDecimal (outputValues tx)))%Qc
        with (sumDecimal (outputValues tx)) by ring.
    + rewrite <- Heq. ring.
  - assert (Hany : anyPrevOut (vin :: l) = true).
    { apply anyPrevOut_true. left. by inversion Hall. }
    by rewrite Hany.
Qed.

(** ** Coinbase branch *)

Lemma foldl_snoc_fmap {A B} (f : A → B) (l : list A) (acc : list B) :
  foldl (λ acc a, acc ++ [f a]) acc l = acc ++ (f <$> l).
Proof.
  revert acc. induction l as [|a l IH]; intros acc; simpl.
  - by rewrite app_nil_r.
  - by rewrite IH, <- app_assoc.
Qed.

Lemma foldl_app_bind {A B} (f : A → list B) (g : list B → A → list B) l acc :
  (∀ acc x, g acc x = acc ++ f x) →
  foldl g acc l = acc ++ (l ≫= f).
Proof.
  intros Hg. revert acc. induction l as [|x l IH]; intros acc.
  - simpl. by rewrite app_nil_r.
  - rewrite bind_cons. cbn [foldl]. by rewrite IH, Hg, <- app_assoc.
Qed.

Lemma coinbaseTransfers_bind tx networkID blockNum timestamp :
  coinbaseTransfers tx networkID blockNum timestamp =
    Tx_Vout tx ≫= λ vout,
      if bool_decide (0 < Vout_Value vout)%Qc
      then (λ addr,
              types.mkTransaction (Tx_Txid tx) networkID blockNum "coinbase"
                addr "" (Vout_Value vout) constant.TxnTypeMining 0%Qc
                timestamp) <$> ExtractAddresses (Vout_ScriptPubKey vout)
      else [].
Proof.
  unfold coinbaseTransfers. rewrite <- (app_nil_l (_ ≫= _)).
  apply foldl_app_bind. intros acc vout.
  destruct (decide (0 < Vout_Value vout)%Qc) as [Hpos|Hnpos].
  - rewrite (bool_decide_eq_true_2 _ Hpos).
    rewrite bool_decide_eq_false_2 by by apply Qclt_not_le.
    case_bool_decide as Hlen.
    + apply nil_length_inv in Hlen. rewrite Hlen. simpl. by rewrite app_nil_r.
    + unfold NewFromFloat, Zero. apply foldl_snoc_fmap.
  - rewrite (bool_decide_eq_false_2 _ Hnpos).
    rewrite bool_decide_eq_true_2 by by apply Qcnot_lt_le.
    by rewrite app_nil_r.
Qed.

(** C3: on a coinbase transaction every emitted transfer comes from
    ["coinbase"], carries no fee and has type mining; the transfers are,
    in output order, one per extracted address of each output with
    positive value, each with that output's whole value. *)
Theorem C3_coinbase_transfers tx order networkID blockNum timestamp fee :
  IsCoinbase tx = true →
  Forall (λ t, types.FromAddress t = "coinbase" ∧ types.TxFee t = 0%Qc ∧
               types.TxType t = constant.TxnTypeMining)
         (ExtractTransfers order tx networkID blockNum timestamp fee) ∧
  (λ t, (types.ToAddress t, types.Amount t)) <$>
    ExtractTransfers order tx networkID blockNum timestamp fee
  = creditedOutputs tx.
Proof.
  intros Hcb. unfold ExtractTransfers. rewrite Hcb, coinbaseTransfers_bind.
  unfold creditedOutputs. clear Hcb.
  induction (Tx_Vout tx) as [|vout l [IH1 IH2]]; [by split|].
  rewrite !bind_cons, fmap_app, IH2. split.
  - apply Forall_app. split; [|done].
    case_bool_decide; [|done]. by apply Forall_fmap, Forall_true.
  - f_equal. case_bool_decide; [|done]. by rewrite <- list_fmap_compose.
Qed.

Lemma C3_coinbase_transfers_witness :
  Forall (λ t, types.FromAddress t = "coinbase" ∧ types.TxFee t = 0%Qc ∧
               types.TxType t = constant.TxnTypeMining)
         (ExtractTransfers [] txCoinbase "bitcoin" 800000 1700000000 0%Qc) ∧
  (λ t, (types.ToAddress t, types.Amount t)) <$>
    ExtractTransfers [] txCoinbase "bitcoin" 800000 1700000000 0%Qc
  = creditedOutputs txCoinbase.
Proof.
  apply (C3_coinbase_transfers txCoinbase [] "bitcoin" 800000 1700000000 0%Qc).
  reflexivity.
Defined.

(** ** Amount conservation *)

Lemma mapTotal_insert_fresh (m : gmap string Qc) k v :
  m !! k = None → mapTotal (<[k:=v]> m) = (v + mapTotal m)%Qc.
Proof.
  intros Hk. unfold mapTotal.
  by rewrite (sumDecimal_perm _ _
    (fmap_Permutation snd _ _ (map_to_list_insert m k v Hk))).
Qed.

Lemma mapTotal_insert_existing (m : gmap string Qc) k existing v :
  m !! k = Some existing →
  mapTotal (<[k:=(existing + v)%Qc]> m) = (v + mapTotal m)%Qc.
Proof.
  intros Hk.
  rewrite <- (insert_delete_id m k existing Hk) at 2.
  rewrite <- insert_delete_eq.
  rewrite !mapTotal_insert_fresh by apply lookup_delete_eq. ring.
Qed.

Lemma groupVout_total (m : gmap string Qc) vout :
  mapTotal (groupVout m vout) =
    (mapTotal m +
     sumDecimal
       (if bool_decide (0 < Vout_Value vout)%Qc
        then (λ _, Vout_Value vout) <$> ExtractAddresses (Vout_ScriptPubKey vout)
        else []))%Qc.
Proof.
  unfold groupVout.
  destruct (decide (0 < Vout_Value vout)%Qc) as [Hpos|Hnpos].
  - rewrite (bool_decide_eq_true_2 _ Hpos).
    rewrite bool_decide_eq_false_2 by by apply Qclt_not_le.
    assert (Hfold : ∀ addrs (m0 : gmap string Qc),
      mapTotal (foldl (λ outputs addr,
                   let value := NewFromFloat (Vout_Value vout) in
                   match outputs !! addr with
                   | Some existing => <[addr := (existing + value)%Qc]> outputs
                   | None => <[addr := value]> outputs
                   end) m0 addrs)
      = (mapTotal m0 + sumDecimal ((λ _, Vout_Value vout) <$> addrs))%Qc).
    { induction addrs as [|a addrs IH]; intros m0.
      - simpl. by rewrite Qcplus_0_r.
      - cbn [foldl]. rewrite IH, fmap_cons, sumDecimal_cons.
        unfold NewFromFloat. destruct (m0 !! a) as [e|] eqn:Ha.
        + rewrite (mapTotal_insert_existing _ _ _ _ Ha). ring.
        + rewrite (mapTotal_insert_fresh _ _ _ Ha). ring. }
    case_bool_decide as Hlen; [|apply Hfold].
    apply nil_length_inv in Hlen. rewrite Hlen. simpl. by rewrite Qcplus_0_r.
  - rewrite (bool_decide_eq_false_2 _ Hnpos).
    rewrite bool_decide_eq_true_2 by by apply Qcnot_lt_le.
    simpl. by rewrite Qcplus_0_r.
Qed.

Lemma foldl_groupVout_total (m : gmap string Qc) vouts :
  mapTotal (foldl groupVout m vouts) =
    (mapTotal m +
     sumDecimal (snd <$> (vouts ≫= λ vout,
        if bool_decide (0 < Vout_Value vout)%Qc
        then (λ addr, (addr, Vout_Value vout)) <$>
               ExtractAddresses (Vout_ScriptPubKey vout)
        else [])))%Qc.
Proof.
  revert m. induction vouts as [|vout l IH]; intros m.
  - simpl. by rewrite Qcplus_0_r.
  - cbn [foldl]. rewrite IH, groupVout_total, bind_cons, fmap_app, sumDecimal_app.
    case_bool_decide; [|simpl; ring].
    replace (((λ addr, (addr, Vout_Value vout)) <$>
                ExtractAddresses (Vout_ScriptPubKey vout)).*2)
      with ((λ _ : string, Vout_Value vout) <$>
              ExtractAddresses (Vout_ScriptPubKey vout))
      by by rewrite <- list_fmap_compose.
    ring.
Qed.

Lemma GroupOutputsByAddress_total tx :
  mapTotal (GroupOutputsByAddress tx) = sumDecimal (snd <$> creditedOutputs tx).
Proof.
  unfold GroupOutputsByAddress, creditedOutputs.
  rewrite foldl_groupVout_total. unfold mapTotal.
  rewrite map_to_list_empty. simpl. by rewrite Qcplus_0_l.
Qed.

Lemma knownInputsStep_amounts tx networkID blockNum timestamp fee inputs order st :
  types.Amount <$>
    snd (foldl (knownInputsStep tx networkID blockNum timestamp fee inputs) st order)
  = (types.Amount <$> snd st) ++ (snd <$> order).
Proof.
  revert st. induction order as [|[addr value] order IH]; intros [assigned acc].
  - simpl. by rewrite app_nil_r.
  - cbn [foldl]. rewrite IH. unfold knownInputsStep.
    destruct (negb assigned && _ && _); simpl;
      by rewrite fmap_app, <- app_assoc.
Qed.

Lemma unknownInputsStep_amounts tx networkID blockNum timestamp fee order st :
  types.Amount <$>
    snd (foldl (unknownInputsStep tx networkID blockNum timestamp fee) st order)
  = (types.Amount <$> snd st) ++ (snd <$> order).
Proof.
  revert st. induction order as [|[addr value] order IH]; intros [assigned acc].
  - simpl. by rewrite app_nil_r.
  - cbn [foldl]. rewrite IH. unfold unknownInputsStep.
    destruct (negb assigned && _); simpl;
      by rewrite fmap_app, <- app_assoc.
Qed.

Lemma ExtractTransfers_amount_total tx order networkID blockNum timestamp fee :
  rangeOrder (GroupOutputsByAddress tx) order →
  sumDecimal (types.Amount <$>
                ExtractTransfers order tx networkID blockNum timestamp fee)
  = sumDecimal (snd <$> creditedOutputs tx).
Proof.
  intros Horder. unfold ExtractTransfers.
  destruct (IsCoinbase tx) eqn:Hcb.
  - rewrite coinbaseTransfers_bind. unfold creditedOutputs.
    induction (Tx_Vout tx) as [|vout l IH]; [done|].
    rewrite !bind_cons, !fmap_app, !sumDecimal_app, IH. f_equal.
    case_bool_decide; [|done]. by rewrite <- !list_fmap_compose.
  - rewrite <- GroupOutputsByAddress_total. unfold mapTotal.
    rewrite <- (sumDecimal_perm _ _ (fmap_Permutation snd _ _ Horder)).
    case_bool_decide.
    + by rewrite knownInputsStep_amounts.
    + by rewrite unknownInputsStep_amounts.
Qed.

(** C4, as the specification words it, fails: a 1 BTC output to a two-key
    multisig is emitted as two transfers of 1 BTC each, so the amounts add
    up to 2 BTC while the address-bearing outputs are worth 1 BTC. *)
Lemma C4_multisig_counted_per_address :
  rangeOrder (GroupOutputsByAddress txMultisig)
             (map_to_list (GroupOutputsByAddress txMultisig)) ∧
  sumDecimal (types.Amount <$>
                ExtractTransfers (map_to_list (GroupOutputsByAddress txMultisig))
                  txMultisig "bitcoin" 800000 1700000000 (dec 1 1))
  = dec 2 1 ∧
  addressBearingTotal txMultisig = dec 1 1 ∧
  dec 2 1 ≠ dec 1 1.
Proof.
  split; [unfold rangeOrder; reflexivity|].
  split; [apply dec_eq; by vm_compute|].
  split; [apply dec_eq; by vm_compute|].
  intros H. by apply (f_equal this) in H.
Qed.

(** C4 (amended): for every transaction and every iteration order of the
    grouped outputs, the amounts of the emitted transfers add up to the
    values of the outputs with positive value, each counted once per
    extracted address; this is the total of the address-bearing
    positive-value outputs whenever no such output has more than one
    extracted address.  The fee plays no part. *)
Theorem C4_amount_total tx order networkID blockNum timestamp fee :
  rangeOrder (GroupOutputsByAddress tx) order →
  sumDecimal (types.Amount <$>
                ExtractTransfers order tx networkID blockNum timestamp fee)
  = sumDecimal (snd <$> creditedOutputs tx) ∧
  (Forall (λ vout, (0 < Vout_Value vout)%Qc →
                   (length (ExtractAddresses (Vout_ScriptPubKey vout)) ≤ 1)%nat)
          (Tx_Vout tx) →
   sumDecimal (types.Amount <$>
                 ExtractTransfers order tx networkID blockNum timestamp fee)
   = addressBearingTotal tx).
Proof.
  intros Horder.
  rewrite (ExtractTransfers_amount_total _ _ _ _ _ _ Horder).
  split; [done|]. intros Hone.
  unfold creditedOutputs, addressBearingTotal.
  induction Hone as [|vout l Hv _ IH]; [done|].
  rewrite !bind_cons, fmap_app, !sumDecimal_app, IH. f_equal.
  destruct (decide (0 < Vout_Value vout)%Qc) as [Hpos|Hnpos].
  - rewrite (bool_decide_eq_true_2 _ Hpos). specialize (Hv Hpos).
    destruct (ExtractAddresses (Vout_ScriptPubKey vout)) as [|a [|b r]].
    + by rewrite bool_decide_eq_false_2 by (intros [_ ?]; done).
    + by rewrite bool_decide_eq_true_2 by done.
    + simpl in Hv. lia.
  - rewrite (bool_decide_eq_false_2 _ Hnpos).
    by rewrite bool_decide_eq_false_2 by (intros [? _]; done).
Qed.

Lemma C4_amount_total_witness :
  sumDecimal (types.Amount <$>
                ExtractTransfers (map_to_list (GroupOutputsByAddress txSpend))
                  txSpend "bitcoin" 800000 1700000000 (dec 1 100))
  = sumDecimal (snd <$> creditedOutputs txSpend) ∧
  (Forall (λ vout, (0 < Vout_Value vout)%Qc →
                   (length (ExtractAddresses (Vout_ScriptPubKey vout)) ≤ 1)%nat)
          (Tx_Vout txSpend) →
   sumDecimal (types.Amount <$>
                 ExtractTransfers (map_to_list (GroupOutputsByAddress txSpend))
                   txSpend "bitcoin" 800000 1700000000 (dec 1 100))
   = addressBearingTotal txSpend).
Proof.
  apply (C4_amount_total txSpend (map_to_list (GroupOutputsByAddress txSpend))
           "bitcoin" 800000 1700000000 (dec 1 100)).
  unfold rangeOrder. reflexivity.
Defined.

(** ** Fee attribution *)

Section FeeAttribution.
Context (tx : Transaction) (networkID : string) (blockNum timestamp : N).
Context (fee : Decimal) (inputs : list string).

Local Abbreviation plain := (plainTransfer tx networkID blockNum timestamp inputs).
Local Abbreviation step :=
  (knownInputsStep tx networkID blockNum timestamp fee inputs).

Lemma existsb_elem_of (addr : string) (l : list string) :
  existsb (λ inputAddr, bool_decide (addr = inputAddr)) l = bool_decide (addr ∈ l).
Proof.
  induction l as [|x l IH]; cbn [existsb].
  - symmetry. apply bool_decide_eq_false_2, not_elem_of_nil.
  - rewrite IH. destruct (decide (addr = x)) as [->|Hne].
    + rewrite (bool_decide_eq_true_2 (x = x)) by done.
      rewrite (bool_decide_eq_true_2 (x ∈ x :: l)) by by left. done.
    + rewrite (bool_decide_eq_false_2 (addr = x)) by done. cbn [orb].
      apply bool_decide_ext. rewrite elem_of_cons. tauto.
Qed.

Lemma knownInputsStep_unfold assigned transfers entry :
  step (assigned, transfers) entry =
    if negb assigned && negb (bool_decide (entry.1 ∈ inputs)) && negb (IsZero fee)
    then (true, transfers ++ [types.setTxFee (plain entry) fee])
    else (assigned, transfers ++ [plain entry]).
Proof.
  destruct entry as [addr value]. unfold knownInputsStep, plainTransfer.
  rewrite existsb_elem_of. simpl.
  destruct (bool_decide (addr ∈ inputs)); destruct assigned;
    destruct (IsZero fee); destruct (bool_decide (1 < length inputs)%nat); done.
Qed.

Lemma knownInputs_no_assignment assigned transfers order :
  assigned = true ∨ Forall (λ entry, entry.1 ∈ inputs) order →
  foldl step (assigned, transfers) order = (assigned, transfers ++ (plain <$> order)).
Proof.
  revert transfers. induction order as [|entry order IH]; intros transfers Hno.
  - simpl. by rewrite app_nil_r.
  - cbn [foldl]. rewrite knownInputsStep_unfold.
    assert (Hcond : negb assigned && negb (bool_decide (entry.1 ∈ inputs)) = false).
    { destruct Hno as [->|Hall]; [done|]. inversion Hall; subst.
      rewrite (bool_decide_eq_true_2 (entry.1 ∈ inputs)) by done.
      by destruct assigned. }
    rewrite Hcond. cbn [andb]. rewrite IH, fmap_cons, <- app_assoc; [done|].
    destruct Hno as [?|Hall]; [by left|right; by inversion Hall].
Qed.

Lemma knownInputs_first_payee pre entry post :
  fee ≠ 0%Qc →
  Forall (λ e, e.1 ∈ inputs) pre → entry.1 ∉ inputs →
  snd (foldl step (false, []) (pre ++ entry :: post)) =
    (plain <$> pre) ++ types.setTxFee (plain entry) fee :: (plain <$> post).
Proof.
  intros Hfee Hpre Hentry. rewrite foldl_app.
  rewrite knownInputs_no_assignment by by right.
  cbn [foldl]. rewrite knownInputsStep_unfold.
  rewrite (bool_decide_eq_false_2 (entry.1 ∈ inputs)) by done.
  unfold IsZero. rewrite (bool_decide_eq_false_2 (fee = 0%Qc)) by done. simpl.
  rewrite knownInputs_no_assignment by by left.
  simpl. by rewrite <- app_assoc.
Qed.

Lemma plain_fee_zero (l : list (string * Decimal)) :
  Forall (λ t, types.TxFee t = 0%Qc) (plain <$> l).
Proof. by apply Forall_fmap, Forall_true. Qed.

Lemma plain_change (l : list (string * Decimal)) :
  Forall (λ e, e.1 ∈ inputs) l →
  Forall (λ t, types.ToAddress t ∈ inputs ∧ types.TxFee t = 0%Qc) (plain <$> l).
Proof.
  intros Hl. apply Forall_fmap. eapply Forall_impl; [exact Hl|].
  intros e He. by split.
Qed.

End FeeAttribution.

Lemma unknownInputsStep_known tx networkID blockNum timestamp fee st entry :
  unknownInputsStep tx networkID blockNum timestamp fee st entry =
  knownInputsStep tx networkID blockNum timestamp fee [] st entry.
Proof. by destruct st as [[] transfers], entry. Qed.

Lemma foldl_pointwise {A B} (f g : A → B → A) (l : list B) (a : A) :
  (∀ a b, f a b = g a b) → foldl f a l = foldl g a l.
Proof.
  intros Hfg. revert a. induction l as [|b l IH]; intros a; [done|].
  cbn [foldl]. by rewrite Hfg, IH.
Qed.

Lemma ExtractTransfers_regular tx order networkID blockNum timestamp fee :
  IsCoinbase tx = false →
  ExtractTransfers order tx networkID blockNum timestamp fee =
    snd (foldl (knownInputsStep tx networkID blockNum timestamp fee
                  (ExtractInputAddresses tx))
               (false, []) order).
Proof.
  intros Hcb. unfold ExtractTransfers. rewrite Hcb.
  case_bool_decide as Hlen; [done|].
  destruct (ExtractInputAddresses tx) as [|a l]; [|simpl in Hlen; lia].
  f_equal. apply foldl_pointwise. intros ??. apply unknownInputsStep_known.
Qed.

Lemma first_outside_split (inputs : list string) (order : list (string * Decimal)) :
  Exists (λ e, e.1 ∉ inputs) order →
  ∃ pre entry post, order = pre ++ entry :: post ∧
                    Forall (λ e, e.1 ∈ inputs) pre ∧ entry.1 ∉ inputs.
Proof.
  induction order as [|e order IH]; intros Hex; [by inversion Hex|].
  destruct (decide (e.1 ∈ inputs)) as [Hin|Hout].
  - destruct IH as (pre & entry & post & -> & Hpre & Hentry).
    { inversion Hex; [done|done]. }
    exists (e :: pre), entry, post. split; [done|]. split; [by constructor|done].
  - exists [], e, order. split; [done|]. split; [constructor|done].
Qed.

Lemma filter_fee_none (f : Decimal) (l : list types.Transaction) :
  f ≠ 0%Qc → Forall (λ t, types.TxFee t = 0%Qc) l →
  filter (λ t, types.TxFee t = f) l = [].
Proof.
  intros Hf. induction 1 as [|t l Ht _ IH]; [done|].
  rewrite filter_cons, IH. destruct (decide (types.TxFee t = f)); [congruence|done].
Qed.

(** The keys of the grouped outputs are the output addresses. *)
Lemma groupVout_lookup (m : gmap string Qc) vout a :
  is_Some (groupVout m vout !! a) ↔
  is_Some (m !! a) ∨
  ((0 < Vout_Value vout)%Qc ∧ a ∈ ExtractAddresses (Vout_ScriptPubKey vout)).
Proof.
  unfold groupVout.
  assert (Hfold : ∀ addrs (m0 : gmap string Qc),
    is_Some (foldl (λ outputs addr,
                 let value := NewFromFloat (Vout_Value vout) in
                 match outputs !! addr with
                 | Some existing => <[addr := (existing + value)%Qc]> outputs
                 | None => <[addr := value]> outputs
                 end) m0 addrs !! a)
    ↔ is_Some (m0 !! a) ∨ a ∈ addrs).
  { induction addrs as [|k addrs IH]; intros m0.
    - simpl. rewrite elem_of_nil. tauto.
    - cbn [foldl]. rewrite IH, elem_of_cons.
      destruct (decide (a = k)) as [->|Hne].
      + destruct (m0 !! k) eqn:Hk; rewrite lookup_insert_eq;
          (split; intros _; [right; by left|left; by eexists]).
      + destruct (m0 !! k) eqn:Hk; rewrite lookup_insert_ne by done; tauto. }
  destruct (decide (0 < Vout_Value vout)%Qc) as [Hpos|Hnpos].
  - rewrite bool_decide_eq_false_2 by by apply Qclt_not_le.
    case_bool_decide as Hlen; [|rewrite Hfold; tauto].
    apply nil_length_inv in Hlen. rewrite Hlen, elem_of_nil. tauto.
  - rewrite bool_decide_eq_true_2 by by apply Qcnot_lt_le. tauto.
Qed.

Lemma GroupOutputsByAddress_lookup tx a :
  is_Some (GroupOutputsByAddress tx !! a) ↔ outputAddress tx a.
Proof.
  unfold GroupOutputsByAddress, outputAddress.
  assert (Hgen : ∀ vouts (m : gmap string Qc),
    is_Some (foldl groupVout m vouts !! a) ↔
    is_Some (m !! a) ∨
    ∃ vout, vout ∈ vouts ∧ (0 < Vout_Value vout)%Qc ∧
            a ∈ ExtractAddresses (Vout_ScriptPubKey vout)).
  { induction vouts as [|vout vouts IH]; intros m.
    - simpl. split; [by left|]. intros [?|(? & Hin & _)]; [done|].
      by apply elem_of_nil in Hin.
    - cbn [foldl]. rewrite IH, groupVout_lookup. split.
      + intros [[?|[??]]|(v & ? & ? & ?)]; [by left| |].
        * right. exists vout. split; [by left|done].
        * right. exists v. split; [by right|done].
      + intros [?|(v & Hin & ? & ?)]; [left; by left|].
        apply elem_of_cons in Hin as [->|Hin]; [left; by right|].
        right. by exists v. }
  rewrite Hgen, lookup_empty. split; [|by right].
  intros [[? ?]|?]; done.
Qed.

Lemma rangeOrder_keys tx order a :
  rangeOrder (GroupOutputsByAddress tx) order →
  (∃ v, (a, v) ∈ order) ↔ outputAddress tx a.
Proof.
  intros Horder. rewrite <- GroupOutputsByAddress_lookup. unfold is_Some.
  apply exist_proper. intros v. rewrite Horder. apply elem_of_map_to_list.
Qed.

(** C2: for a non-coinbase transaction extracted with a fee [f > 0], under
    any iteration order of the grouped outputs: if some output address is
    not an input address, the emitted transfers split as [pre ++ tr ::
    post] where [tr] is the first transfer whose destination is not an input
    address, [tr] carries [f], every other transfer carries 0, and so
    exactly one transfer carries [f]; if every output address is an input
    address, no transfer carries the fee. *)
Theorem C2_fee_attribution tx order networkID blockNum timestamp f :
  IsCoinbase tx = false →
  (0 < f)%Qc →
  rangeOrder (GroupOutputsByAddress tx) order →
  ((∃ a, outputAddress tx a ∧ a ∉ ExtractInputAddresses tx) →
     (∃ pre tr post,
        ExtractTransfers order tx networkID blockNum timestamp f
          = pre ++ tr :: post ∧
        Forall (λ t, types.ToAddress t ∈ ExtractInputAddresses tx ∧
                     types.TxFee t = 0%Qc) pre ∧
        (types.ToAddress tr ∉ ExtractInputAddresses tx) ∧
        types.TxFee tr = f ∧
        Forall (λ t, types.TxFee t = 0%Qc) post) ∧
     length (filter (λ t, types.TxFee t = f)
               (ExtractTransfers order tx networkID blockNum timestamp f)) = 1%nat)
  ∧
  ((∀ a, outputAddress tx a → a ∈ ExtractInputAddresses tx) →
     Forall (λ t, types.TxFee t = 0%Qc)
            (ExtractTransfers order tx networkID blockNum timestamp f)).
Proof.
  intros Hcb Hf Horder.
  assert (Hf0 : f ≠ 0%Qc) by (intros ->; by apply (Qclt_not_eq 0 0)%Qc in Hf).
  rewrite (ExtractTransfers_regular _ _ _ _ _ _ Hcb). split.
  - intros (a & Hout & Hnin).
    apply (rangeOrder_keys _ _ _ Horder) in Hout as [v Hv].
    destruct (first_outside_split (ExtractInputAddresses tx) order)
      as (pre & entry & post & -> & Hpre & Hentry).
    { apply Exists_exists. by exists (a, v). }
    rewrite knownInputs_first_payee by done. split.
    + eexists _, _, _. split; [done|].
      split; [by apply plain_change|]. split; [done|].
      split; [done|apply plain_fee_zero].
    + rewrite filter_app, filter_cons. simpl. rewrite decide_True by done.
      rewrite !filter_fee_none by (done || apply plain_fee_zero). done.
  - intros Hall. rewrite knownInputs_no_assignment.
    + apply plain_fee_zero.
    + right. apply Forall_forall. intros [a v] Hin. simpl. apply Hall.
      apply (rangeOrder_keys _ _ _ Horder). by exists v.
Qed.

Lemma C2_fee_attribution_witness :
  ((∃ a, outputAddress txSpend a ∧ a ∉ ExtractInputAddresses txSpend) →
     (∃ pre tr post,
        ExtractTransfers (map_to_list (GroupOutputsByAddress txSpend)) txSpend
          "bitcoin" 800000 1700000000 (dec 1 100)
          = pre ++ tr :: post ∧
        Forall (λ t, types.ToAddress t ∈ ExtractInputAddresses txSpend ∧
                     types.TxFee t = 0%Qc) pre ∧
        (types.ToAddress tr ∉ ExtractInputAddresses txSpend) ∧
        types.TxFee tr = dec 1 100 ∧
        Forall (λ t, types.TxFee t = 0%Qc) post) ∧
     length (filter (λ t, types.TxFee t = dec 1 100)
               (ExtractTransfers (map_to_list (GroupOutputsByAddress txSpend))
                  txSpend "bitcoin" 800000 1700000000 (dec 1 100))) = 1%nat)
  ∧
  ((∀ a, outputAddress txSpend a → a ∈ ExtractInputAddresses txSpend) →
     Forall (λ t, types.TxFee t = 0%Qc)
            (ExtractTransfers (map_to_list (GroupOutputsByAddress txSpend))
               txSpend "bitcoin" 800000 1700000000 (dec 1 100))).
Proof.
  apply (C2_fee_attribution txSpend (map_to_list (GroupOutputsByAddress txSpend))
           "bitcoin" 800000 1700000000 (dec 1 100)).
  - reflexivity.
  - reflexivity.
  - unfold rangeOrder. reflexivity.
Defined.

(** ** Bech32 validation *)

Section Bech32Facts.
Context (bech32_Decode : string → option (string * list byte)).
Context (bech32_ConvertBits : list byte → N → N → bool → option (list byte)).

(** C7: [IsValidBech32Address addr isTestnet] is true exactly when [addr]
    decodes to the expected HRP (["bc"], or ["tb"] on testnet) and a
    non-empty payload whose tail, after the witness-version symbol,
    regroups from 5 to 8 bits without padding into a program of 20 or 32
    bytes for version 0, of 32 bytes for version 1, and of any length for
    the other versions. *)
Theorem C7_IsValidBech32Address_iff addr isTestnet :
  IsValidBech32Address bech32_Decode bech32_ConvertBits addr isTestnet = true ↔
  ∃ hrp version payload program,
    bech32_Decode addr = Some (hrp, version :: payload) ∧
    hrp = (if isTestnet then "tb" else "bc") ∧
    bech32_ConvertBits payload 5 8 false = Some program ∧
    (version = 0%N → length program = 20%nat ∨ length program = 32%nat) ∧
    (version = 1%N → length program = 32%nat).
Proof.
  unfold IsValidBech32Address, TestnetBech32HRP, MainnetBech32HRP.
  destruct (bech32_Decode addr) as [[hrp data]|]; [|split; [done|]].
  2:{ intros (? & ? & ? & ? & ? & _). done. }
  case_bool_decide as Hhrp.
  { split; [done|]. intros (h & v & pl & pr & Hdec & Hh & _).
    injection Hdec as Hh' _. congruence. }
  destruct data as [|version payload].
  { split; [done|]. intros (h & v & pl & pr & Hdec & _). discriminate Hdec. }
  rewrite bool_decide_eq_false_2 by done.
  simpl. rewrite drop_0.
  destruct (bech32_ConvertBits payload 5 8 false) as [program|] eqn:Hconv.
  2:{ split; [done|]. intros (h & v & pl & pr & Hdec & _ & Hc & _).
      injection Hdec as _ _ Hpl. congruence. }
  split.
  - intros Hok. exists hrp, version, payload, program.
    split; [done|]. split; [done|]. split; [done|]. split.
    + intros ->. rewrite bool_decide_eq_true_2 in Hok by done.
      destruct (decide (length program = 20%nat)); [by left|].
      destruct (decide (length program = 32%nat)); [by right|].
      rewrite (bool_decide_eq_true_2 (length program ≠ 20%nat)) in Hok by done.
      by rewrite (bool_decide_eq_true_2 (length program ≠ 32%nat)) in Hok by done.
    + intros ->. rewrite (bool_decide_eq_false_2 (1%N = 0%N)) in Hok by done.
      rewrite (bool_decide_eq_true_2 (1%N = 1%N)) in Hok by done.
      destruct (decide (length program = 32%nat)); [done|].
      by rewrite (bool_decide_eq_true_2 (length program ≠ 32%nat)) in Hok by done.
  - intros (h & v & pl & prog & Hdec & _ & Hc & H0 & H1).
    injection Hdec as _ Hv Hpl. subst v pl.
    assert (prog = program) as -> by congruence.
    destruct (decide (version = 0%N)) as [->|Hv0].
    + rewrite (bool_decide_eq_false_2 (0%N = 1%N)) by done.
      destruct (H0 eq_refl) as [Hl|Hl]; rewrite Hl;
        by rewrite bool_decide_eq_true_2 by done.
    + rewrite (bool_decide_eq_false_2 (version = 0%N)) by done.
      destruct (decide (version = 1%N)) as [->|Hv1].
      * rewrite (H1 eq_refl). by rewrite bool_decide_eq_true_2 by done.
      * by rewrite (bool_decide_eq_false_2 (version = 1%N)) by done.
Qed.

End Bech32Facts.

(** ** Verbosity ladder *)

Section ClientFacts.
Context (node : list RPCCall → RPCCall → result RawMessage).
Context (unmarshalBlock : RawMessage → option Block).
Context (unmarshalString : RawMessage → option string).

Lemma GetBlockVerbose_trace hash trace :
  fst (GetBlockVerbose node unmarshalBlock hash trace)
    = trace ++ [getblockCall hash 2].
Proof.
  unfold GetBlockVerbose, mbind, RPC_bind, CallRPC, getblockCall.
  destruct (node trace _); [|done].
  by destruct (unmarshalBlock _).
Qed.

Lemma GetBlockWithPrevOut_rejected hash trace err :
  node trace (getblockCall hash 3) = Err err →
  GetBlockWithPrevOut node unmarshalBlock hash trace
    = GetBlockVerbose node unmarshalBlock hash (trace ++ [getblockCall hash 3]).
Proof.
  intros Hrej. unfold GetBlockWithPrevOut, caseRPC, CallRPC.
  fold (getblockCall hash 3). by rewrite Hrej.
Qed.

Lemma GetBlockWithPrevOut_answered hash trace raw :
  node trace (getblockCall hash 3) = Ok raw →
  GetBlockWithPrevOut node unmarshalBlock hash trace
    = (trace ++ [getblockCall hash 3],
       match unmarshalBlock raw with
       | Some blk => Ok blk
       | None => Err (Errorf "decode getblock")
       end).
Proof.
  intros Hans. unfold GetBlockWithPrevOut, caseRPC, CallRPC.
  fold (getblockCall hash 3). rewrite Hans. by destruct (unmarshalBlock raw).
Qed.

(** C5 (amended): [GetBlockWithPrevOut] issues [getblock] at verbosity 3
    first.  When that call is answered, nothing else is issued and the
    decoded block (or the decode error) is returned.  When that call
    returns an error, [GetBlockWithPrevOut] itself goes on with
    [GetBlockVerbose]: it issues [getblock] at verbosity 2 next and
    returns the outcome of that call, not the verbosity-3 error.  The
    orchestrator falls back to [GetBlockVerbose] once more when
    [GetBlockWithPrevOut] returned an error. *)
Theorem C5_GetBlockWithPrevOut_ladder hash trace :
  (∀ raw, node trace (getblockCall hash 3) = Ok raw →
     GetBlockWithPrevOut node unmarshalBlock hash trace
       = (trace ++ [getblockCall hash 3],
          match unmarshalBlock raw with
          | Some blk => Ok blk
          | None => Err (Errorf "decode getblock")
          end)) ∧
  (∀ err, node trace (getblockCall hash 3) = Err err →
     GetBlockWithPrevOut node unmarshalBlock hash trace
       = GetBlockVerbose node unmarshalBlock hash
           (trace ++ [getblockCall hash 3]) ∧
     fst (GetBlockWithPrevOut node unmarshalBlock hash trace)
       = trace ++ [getblockCall hash 3; getblockCall hash 2]) ∧
  (∀ number trace1 trace2 err,
     GetBlockHash node unmarshalString number trace = (trace1, Ok hash) →
     GetBlockWithPrevOut node unmarshalBlock hash trace1 = (trace2, Err err) →
     fetchBlock node unmarshalBlock unmarshalString number trace
       = GetBlockVerbose node unmarshalBlock hash trace2).
Proof.
  split; [|split].
  - apply GetBlockWithPrevOut_answered.
  - intros err Hrej. rewrite (GetBlockWithPrevOut_rejected _ _ _ Hrej).
    split; [done|]. by rewrite GetBlockVerbose_trace, <- app_assoc.
  - intros number trace1 trace2 err Hhash Hprev.
    unfold fetchBlock, mbind, RPC_bind. rewrite Hhash.
    unfold caseRPC. by rewrite Hprev.
Qed.

End ClientFacts.

(** C5, as the specification words it, fails: against a node that refuses
    verbosity 3, [GetBlockWithPrevOut] issues a second [getblock] at
    verbosity 2 itself and returns the block, not the error. *)
Lemma C5_facade_retries_at_verbosity_2 :
  nodeWithoutVerbosity3 [] (getblockCall "00ab" 3)
    = Err (ErrRPC (mkRPCError (-8) "verbosity 3 not supported")) ∧
  GetBlockWithPrevOut nodeWithoutVerbosity3 unmarshalSample "00ab" []
    = ([getblockCall "00ab" 3; getblockCall "00ab" 2], Ok sampleBlock) ∧
  ¬ returnsVerbosityError nodeWithoutVerbosity3 unmarshalSample "00ab" [].
Proof.
  split; [reflexivity|]. split; [reflexivity|].
  intros H. specialize (H _ eq_refl). discriminate H.
Qed.

(** ** Height ranges *)

Lemma incr64_range n : (0 ≤ incr64 n ≤ maxUint64)%Z.
Proof.
  unfold incr64, maxUint64.
  pose proof (Z.mod_pos_bound (n + 1) (2 ^ 64)) as Hb. lia.
Qed.

Lemma heightsLoop_top fuel n nums :
  (n ≤ maxUint64)%Z → heightsLoop fuel n maxUint64 nums = None.
Proof.
  revert n nums. induction fuel as [|fuel IH]; intros n nums Hn; [done|].
  cbn [heightsLoop]. rewrite bool_decide_eq_true_2 by done.
  apply IH, incr64_range.
Qed.

Lemma heightsLoop_below fuel n to nums :
  (0 ≤ n)%Z → (to < maxUint64)%Z → (Z.to_nat (to + 1 - n) < fuel)%nat →
  heightsLoop fuel n to nums = Some (nums ++ seqZ n (to + 1 - n)).
Proof.
  revert n nums. induction fuel as [|fuel IH]; intros n nums Hn Hto Hfuel; [lia|].
  cbn [heightsLoop]. case_bool_decide as Hle.
  - assert (Hinc : incr64 n = (n + 1)%Z).
    { unfold incr64. apply Z.mod_small. unfold maxUint64 in Hto. lia. }
    rewrite Hinc, IH by lia. rewrite <- app_assoc. f_equal.
    replace (to + 1 - n)%Z with (Z.succ (to + 1 - (n + 1)))%Z by lia.
    rewrite (seqZ_cons n) by lia.
    replace (Z.pred (Z.succ (to + 1 - (n + 1))))%Z with (to + 1 - (n + 1))%Z by lia.
    replace (Z.succ n) with (n + 1)%Z by lia. done.
  - unfold seqZ. replace (Z.to_nat (to + 1 - n)) with 0%nat by lia.
    simpl. by rewrite app_nil_r.
Qed.

Section OrchestratorFacts.
Context (BlockResult : Type).
Context (workerPool : list Z → option (list BlockResult) * option error).

Lemma GetBlocksByNumbers_empty :
  GetBlocksByNumbers BlockResult workerPool [] = (None, None).
Proof. reflexivity. Qed.

Lemma GetBlocks_invalid_range fuel from to :
  (to < from)%Z →
  GetBlocks BlockResult workerPool fuel from to
    = Some (None, Some (Errorf "invalid range")).
Proof. intros Hlt. unfold GetBlocks. by rewrite bool_decide_eq_true_2. Qed.

(** Below the top of the [uint64] range, [GetBlocks] hands the ascending
    heights [from..to] to [GetBlocksByNumbers]. *)
Lemma GetBlocks_delegates from to :
  (0 ≤ from ≤ to)%Z → (to < maxUint64)%Z →
  GetBlocks BlockResult workerPool (S (S (Z.to_nat (to - from)))) from to
    = Some (GetBlocksByNumbers BlockResult workerPool (seqZ from (to - from + 1))).
Proof.
  intros Hle Hto. unfold GetBlocks. rewrite bool_decide_eq_false_2 by lia.
  rewrite heightsLoop_below by lia. simpl. do 3 f_equal. lia.
Qed.

(** C10 at [from = to = 2^64 - 1]: the range is valid, yet the loop that
    builds the heights never ends, since [n <= to] holds for every
    [uint64] and [n++] wraps around; [GetBlocks] returns nothing, whatever
    the number of iterations allowed. *)
Theorem C10_GetBlocks_top_height_diverges fuel :
  GetBlocks BlockResult workerPool fuel maxUint64 maxUint64 = None.
Proof.
  unfold GetBlocks. rewrite bool_decide_eq_false_2 by lia.
  by rewrite heightsLoop_top.
Qed.

End OrchestratorFacts.

(** ** PrevOut enrichment *)

Lemma sameVinExceptPrevOut_refl vins : Forall2 sameVinExceptPrevOut vins vins.
Proof. induction vins; constructor; [by repeat split|done]. Qed.

Lemma guardedAssignment_refl reply vin : guardedAssignment reply vin vin.
Proof. split; [by left|by split]. Qed.

Section EnrichmentFacts.
Context (GetRawTransaction : nat → nat → string → Z → result Transaction).

Lemma enrichVin_spec i j vin :
  ∃ vin', enrichVin GetRawTransaction i j vin = Returned vin' ∧
          sameVinExceptPrevOut vin vin' ∧
          guardedAssignment (GetRawTransaction i j (Vin_Txid vin) 1) vin vin'.
Proof.
  unfold enrichVin.
  destruct (bool_decide (Vin_Txid vin = "") || bool_decide (Vin_Coinbase vin ≠ "")).
  { exists vin. split; [done|]. split; [by repeat split|].
    apply guardedAssignment_refl. }
  destruct (GetRawTransaction i j (Vin_Txid vin) 1) as [prevTx|err] eqn:Hreply.
  2:{ exists vin. split; [done|]. split; [by repeat split|].
      apply guardedAssignment_refl. }
  case_bool_decide as Hguard.
  - destruct (lookup_lt_is_Some_2 _ _ Hguard) as [prevOut Hout].
    unfold indexSlice. rewrite Hout.
    eexists. split; [reflexivity|]. split; [by repeat split|].
    split; [|split].
    + right. by exists prevTx, prevOut.
    + intros err [=].
    + intros ? [= <-] Hge. lia.
  - exists vin. split; [done|]. split; [by repeat split|].
    apply guardedAssignment_refl.
Qed.

Lemma enrichVins_spec i j vins :
  ∃ vins', enrichVins GetRawTransaction i j vins = Returned vins' ∧
           Forall2 sameVinExceptPrevOut vins vins' ∧
           ∀ k vin vin', vins !! k = Some vin → vins' !! k = Some vin' →
             guardedAssignment
               (GetRawTransaction i (j + k)%nat (Vin_Txid vin) 1) vin vin'.
Proof.
  revert j. induction vins as [|vin rest IH]; intros j.
  - exists []. split; [done|]. split; [constructor|]. intros k ?? Hk.
    by rewrite lookup_nil in Hk.
  - destruct (enrichVin_spec i j vin) as (vin' & Hvin & Hsame & Hguard).
    destruct (IH (S j)) as (rest' & Hrest & Hsames & Hguards).
    exists (vin' :: rest'). cbn [enrichVins]. rewrite Hvin. simpl.
    rewrite Hrest. simpl. split; [done|]. split; [by constructor|].
    intros [|k] v v' Hv Hv'; simpl in Hv, Hv'.
    + injection Hv as <-. injection Hv' as <-. by rewrite Nat.add_0_r.
    + rewrite Nat.add_succ_r. by apply Hguards.
Qed.

Lemma enrichTx_spec i tx :
  ∃ tx', enrichTx GetRawTransaction i tx = Returned tx' ∧
         txFrame tx tx' ∧
         ∀ j vin vin', Tx_Vin tx !! j = Some vin → Tx_Vin tx' !! j = Some vin' →
           guardedAssignment (GetRawTransaction i j (Vin_Txid vin) 1) vin vin'.
Proof.
  assert (Hskip : ∃ tx', Returned tx = Returned tx' ∧ txFrame tx tx' ∧
            ∀ j vin vin', Tx_Vin tx !! j = Some vin → Tx_Vin tx' !! j = Some vin' →
              guardedAssignment (GetRawTransaction i j (Vin_Txid vin) 1) vin vin').
  { exists tx. split; [done|]. split.
    - split; [by repeat split|]. split; [apply sameVinExceptPrevOut_refl|done].
    - intros j vin vin' Hv Hv'. rewrite Hv in Hv'. injection Hv' as <-.
      apply guardedAssignment_refl. }
  unfold enrichTx. destruct (IsCoinbase tx) eqn:Hcb; [done|].
  destruct (HasPrevOutData tx) eqn:Hprev; [done|]. clear Hskip.
  destruct (enrichVins_spec i 0 (Tx_Vin tx)) as (vins & Hvins & Hsame & Hguard).
  rewrite Hvins. simpl. eexists. split; [reflexivity|]. split.
  - split; [by repeat split|]. split; [done|]. intros [?|?]; congruence.
  - done.
Qed.

Lemma enrichTxs_spec i txs :
  ∃ txs', enrichTxs GetRawTransaction i txs = Returned txs' ∧
          Forall2 txFrame txs txs' ∧
          ∀ k tx tx', txs !! k = Some tx → txs' !! k = Some tx' →
            ∀ j vin vin', Tx_Vin tx !! j = Some vin → Tx_Vin tx' !! j = Some vin' →
              guardedAssignment
                (GetRawTransaction (i + k)%nat j (Vin_Txid vin) 1) vin vin'.
Proof.
  revert i. induction txs as [|tx rest IH]; intros i.
  - exists []. split; [done|]. split; [constructor|]. intros k ?? Hk.
    by rewrite lookup_nil in Hk.
  - destruct (enrichTx_spec i tx) as (tx' & Htx & Hframe & Hguard).
    destruct (IH (S i)) as (rest' & Hrest & Hframes & Hguards).
    exists (tx' :: rest'). cbn [enrichTxs]. rewrite Htx. simpl.
    rewrite Hrest. simpl. split; [done|]. split; [by constructor|].
    intros [|k] t t' Ht Ht'; simpl in Ht, Ht'.
    + injection Ht as <-. injection Ht' as <-. by rewrite Nat.add_0_r.
    + rewrite Nat.add_succ_r. by apply Hguards.
Qed.

(** C8: on a non-nil block [EnrichBlockWithPrevOuts] neither panics nor
    returns an error, whatever the [GetRawTransaction] calls return.  Every
    input is either left as it is or gets its [PrevOut] from the output its
    [Vout] indexes in the fetched transaction, and then that index is
    below the number of outputs; an input whose call failed or whose index
    is out of range is left as it is. *)
Theorem C8_enrichment_guarded block :
  ∃ txs,
    EnrichBlockWithPrevOuts GetRawTransaction (Some block)
      = Returned (Some (setBlockTx block txs), None) ∧
    length txs = length (Block_Tx block) ∧
    ∀ i tx tx', Block_Tx block !! i = Some tx → txs !! i = Some tx' →
      length (Tx_Vin tx') = length (Tx_Vin tx) ∧
      ∀ j vin vin', Tx_Vin tx !! j = Some vin → Tx_Vin tx' !! j = Some vin' →
        guardedAssignment (GetRawTransaction i j (Vin_Txid vin) 1) vin vin'.
Proof.
  destruct (enrichTxs_spec 0 (Block_Tx block)) as (txs & Htxs & Hframes & Hguards).
  exists txs. unfold EnrichBlockWithPrevOuts. rewrite Htxs. simpl.
  split; [done|]. split; [symmetry; by eapply Forall2_length|].
  intros i tx tx' Htx Htx'. split.
  - destruct (Forall2_lookup_lr _ _ _ _ _ _ Hframes Htx Htx') as (_ & Hvins & _).
    symmetry. by eapply Forall2_length.
  - by apply (Hguards i tx tx').
Qed.

(** C9: on a non-nil block the block left behind by
    [EnrichBlockWithPrevOuts] has the header fields of the original and as
    many transactions; every transaction keeps all its fields but [Vin],
    and as many inputs, each input keeping all its fields but [PrevOut];
    coinbase transactions and transactions that already had some
    [prevOut] are unchanged. *)
Theorem C9_enrichment_frame block :
  ∃ block',
    EnrichBlockWithPrevOuts GetRawTransaction (Some block)
      = Returned (Some block', None) ∧
    sameHeader block block' ∧
    Forall2 (λ tx tx',
               sameTxExceptVin tx tx' ∧
               Forall2 sameVinExceptPrevOut (Tx_Vin tx) (Tx_Vin tx') ∧
               (IsCoinbase tx = true ∨ HasPrevOutData tx = true → tx' = tx))
            (Block_Tx block) (Block_Tx block').
Proof.
  destruct (enrichTxs_spec 0 (Block_Tx block)) as (txs & Htxs & Hframes & _).
  exists (setBlockTx block txs). unfold EnrichBlockWithPrevOuts.
  rewrite Htxs. simpl. split; [done|]. split; [by repeat split|done].
Qed.

End EnrichmentFacts.

(** ** Input addresses *)

Lemma collectAddresses_inner (addrs : list string) (seen : gset string)
    (l : list string) :
  NoDup l → (∀ a, a ∈ seen ↔ a ∈ l) →
  NoDup (foldl (λ '(addressSet, addresses) addr,
                  if bool_decide (addr ∈ addressSet)
                  then (addressSet, addresses)
                  else ({[addr]} ∪ addressSet, addresses ++ [addr]))
               (seen, l) addrs).2 ∧
  (∀ a, a ∈ (foldl (λ '(addressSet, addresses) addr,
                      if bool_decide (addr ∈ addressSet)
                      then (addressSet, addresses)
                      else ({[addr]} ∪ addressSet, addresses ++ [addr]))
                   (seen, l) addrs).1
        ↔ a ∈ (foldl (λ '(addressSet, addresses) addr,
                      if bool_decide (addr ∈ addressSet)
                      then (addressSet, addresses)
                      else ({[addr]} ∪ addressSet, addresses ++ [addr]))
                   (seen, l) addrs).2) ∧
  (∀ a, a ∈ (foldl (λ '(addressSet, addresses) addr,
                      if bool_decide (addr ∈ addressSet)
                      then (addressSet, addresses)
                      else ({[addr]} ∪ addressSet, addresses ++ [addr]))
                   (seen, l) addrs).2
        ↔ a ∈ l ∨ a ∈ addrs).
Proof.
  revert seen l. induction addrs as [|k addrs IH]; intros seen l Hnd Hseen.
  - simpl. split; [done|]. split; [done|]. intros a. rewrite elem_of_nil. tauto.
  - cbn [foldl]. case_bool_decide as Hk.
    + destruct (IH seen l Hnd Hseen) as (H1 & H2 & H3).
      split; [done|]. split; [done|]. intros a. rewrite H3, elem_of_cons.
      split; [tauto|]. intros [?|[->|?]]; [tauto| |tauto]. left. by apply Hseen.
    + destruct (IH ({[k]} ∪ seen) (l ++ [k])) as (H1 & H2 & H3).
      * apply NoDup_app. split; [done|]. split; [|apply NoDup_singleton].
        intros x Hx ->%list_elem_of_singleton. apply Hk. by apply Hseen.
      * intros a. rewrite elem_of_union, elem_of_singleton, elem_of_app,
          list_elem_of_singleton, Hseen. tauto.
      * split; [done|]. split; [done|]. intros a.
        rewrite H3, elem_of_app, list_elem_of_singleton, elem_of_cons. tauto.
Qed.

Lemma collectAddresses_outer (vins : list Vin) (seen : gset string)
    (l : list string) :
  NoDup l → (∀ a, a ∈ seen ↔ a ∈ l) →
  NoDup (foldl (λ '(addressSet, addresses) vin,
                if bool_decide (Vin_Coinbase vin ≠ "")
                then (addressSet, addresses)
                else
                  match Vin_PrevOut vin with
                  | Some po =>
                      foldl (λ '(addressSet, addresses) addr,
                               if bool_decide (addr ∈ addressSet)
                               then (addressSet, addresses)
                               else ({[addr]} ∪ addressSet, addresses ++ [addr]))
                            (addressSet, addresses)
                            (ExtractAddresses (PrevOut_ScriptPubKey po))
                  | None => (addressSet, addresses)
                  end)
             (seen, l) vins).2 ∧
  (∀ a, a ∈ (foldl (λ '(addressSet, addresses) vin,
                if bool_decide (Vin_Coinbase vin ≠ "")
                then (addressSet, addresses)
                else
                  match Vin_PrevOut vin with
                  | Some po =>
                      foldl (λ '(addressSet, addresses) addr,
                               if bool_decide (addr ∈ addressSet)
                               then (addressSet, addresses)
                               else ({[addr]} ∪ addressSet, addresses ++ [addr]))
                            (addressSet, addresses)
                            (ExtractAddresses (PrevOut_ScriptPubKey po))
                  | None => (addressSet, addresses)
                  end)
             (seen, l) vins).2
        ↔ a ∈ l ∨
          ∃ vin po, vin ∈ vins ∧ Vin_Coinbase vin = "" ∧
                    Vin_PrevOut vin = Some po ∧
                    a ∈ ExtractAddresses (PrevOut_ScriptPubKey po)).
Proof.
  revert seen l. induction vins as [|vin vins IH]; intros seen l Hnd Hseen.
  - simpl. split; [done|]. intros a. split; [by left|].
    intros [?|(? & ? & Hin & _)]; [done|]. by apply elem_of_nil in Hin.
  - cbn [foldl]. case_bool_decide as Hcb.
    { destruct (IH seen l Hnd Hseen) as (H1 & H2). split; [done|].
      intros a. rewrite H2. split.
      - intros [?|(v & po & Hin & ?)]; [by left|]. right. exists v, po.
        split; [by right|done].
      - intros [?|(v & po & Hin & Hc & ?)]; [by left|].
        apply elem_of_cons in Hin as [->|Hin]; [done|]. right. by exists v, po. }
    assert (Hc : Vin_Coinbase vin = "") by by destruct (decide (Vin_Coinbase vin = "")).
    destruct (Vin_PrevOut vin) as [po|] eqn:Hpo.
    + destruct (collectAddresses_inner
                  (ExtractAddresses (PrevOut_ScriptPubKey po)) seen l Hnd Hseen)
        as (G1 & G2 & G3).
      destruct (foldl _ (seen, l) (ExtractAddresses (PrevOut_ScriptPubKey po)))
        as [seen' l'] eqn:Hfold.
      simpl in G1, G2, G3.
      destruct (IH seen' l' G1 G2) as (H1 & H2). split; [done|].
      intros a. rewrite H2, G3. split.
      * intros [[?|?]|(v & po' & Hin & ?)]; [by left| |].
        -- right. exists vin, po. split; [by left|done].
        -- right. exists v, po'. split; [by right|done].
      * intros [?|(v & po' & Hin & Hc' & Hpo' & Ha)]; [left; by left|].
        apply elem_of_cons in Hin as [->|Hin].
        -- left. right. congruence.
        -- right. by exists v, po'.
    + destruct (IH seen l Hnd Hseen) as (H1 & H2). split; [done|].
      intros a. rewrite H2. split.
      * intros [?|(v & po & Hin & ?)]; [by left|]. right. exists v, po.
        split; [by right|done].
      * intros [?|(v & po & Hin & Hc' & Hpo' & ?)]; [by left|].
        apply elem_of_cons in Hin as [->|Hin]; [congruence|]. right. by exists v, po.
Qed.

(** X1: [ExtractInputAddresses] returns each input address once: the list
    has no duplicates and holds exactly the extracted addresses of the
    [prevOut]s of the non-coinbase inputs. *)
Theorem ExtractInputAddresses_unique tx :
  NoDup (ExtractInputAddresses tx) ∧
  ∀ a, a ∈ ExtractInputAddresses tx ↔ inputAddress tx a.
Proof.
  unfold ExtractInputAddresses, inputAddress.
  destruct (collectAddresses_outer (Tx_Vin tx) ∅ []) as (H1 & H2).
  - constructor.
  - intros a. rewrite elem_of_nil. split; [|done]. apply not_elem_of_empty.
  - split; [done|]. intros a. rewrite H2, elem_of_nil. tauto.
Qed.

(** ** Grouped outputs, per address *)

Lemma creditOption_app (o : option Qc) l1 l2 :
  creditOption (creditOption o l1) l2 = creditOption o (l1 ++ l2).
Proof.
  destruct l1 as [|x l1]; [done|]. destruct l2 as [|y l2].
  - by rewrite app_nil_r.
  - cbn [creditOption app]. f_equal. cbn [from_option id].
    rewrite (sumDecimal_cons x (l1 ++ y :: l2)), sumDecimal_app.
    rewrite (sumDecimal_cons x l1). ring.
Qed.

Lemma sumDecimal_pos (l : list Qc) :
  l ≠ [] → Forall (λ v, 0 < v)%Qc l → (0 < sumDecimal l)%Qc.
Proof.
  intros Hne Hall. destruct Hall as [|x l Hx Hl]; [done|].
  rewrite sumDecimal_cons. apply Qcplus_pos_nonneg; [done|].
  apply sumDecimal_nonneg. eapply Forall_impl; [exact Hl|].
  intros v. apply Qclt_le_weak.
Qed.

Lemma groupVout_credit (m : gmap string Qc) vout a :
  groupVout m vout !! a =
    creditOption (m !! a)
      (snd <$> filter (λ entry, entry.1 = a)
         (if bool_decide (0 < Vout_Value vout)%Qc
          then (λ addr, (addr, Vout_Value vout)) <$>
                 ExtractAddresses (Vout_ScriptPubKey vout)
          else [])).
Proof.
  unfold groupVout.
  assert (Hfold : ∀ addrs (m0 : gmap string Qc),
    foldl (λ outputs addr,
             let value := NewFromFloat (Vout_Value vout) in
             match outputs !! addr with
             | Some existing => <[addr := (existing + value)%Qc]> outputs
             | None => <[addr := value]> outputs
             end) m0 addrs !! a
    = creditOption (m0 !! a)
        (snd <$> filter (λ entry, entry.1 = a)
           ((λ addr, (addr, Vout_Value vout)) <$> addrs))).
  { induction addrs as [|k addrs IH]; intros m0; [done|].
    cbn [foldl]. rewrite IH, fmap_cons, filter_cons. unfold NewFromFloat.
    destruct (decide (k = a)) as [->|Hne].
    - rewrite decide_True by done. rewrite fmap_cons.
      change (?x :: ?l) with ([x] ++ l). rewrite <- creditOption_app.
      f_equal. destruct (m0 !! a) as [e|]; rewrite lookup_insert_eq; simpl;
        f_equal; ring.
    - rewrite decide_False by done.
      f_equal. destruct (m0 !! k); by rewrite lookup_insert_ne. }
  destruct (decide (0 < Vout_Value vout)%Qc) as [Hpos|Hnpos].
  - rewrite (bool_decide_eq_true_2 _ Hpos).
    rewrite bool_decide_eq_false_2 by by apply Qclt_not_le.
    case_bool_decide as Hlen; [|apply Hfold].
    apply nil_length_inv in Hlen. by rewrite Hlen.
  - rewrite (bool_decide_eq_false_2 _ Hnpos).
    by rewrite bool_decide_eq_true_2 by by apply Qcnot_lt_le.
Qed.

Lemma foldl_groupVout_credit (m : gmap string Qc) vouts a :
  foldl groupVout m vouts !! a =
    creditOption (m !! a)
      (snd <$> filter (λ entry, entry.1 = a)
         (vouts ≫= λ vout,
            if bool_decide (0 < Vout_Value vout)%Qc
            then (λ addr, (addr, Vout_Value vout)) <$>
                   ExtractAddresses (Vout_ScriptPubKey vout)
            else [])).
Proof.
  revert m. induction vouts as [|vout vouts IH]; intros m; [done|].
  cbn [foldl]. rewrite IH, groupVout_credit, creditOption_app.
  by rewrite bind_cons, filter_app, fmap_app.
Qed.

Lemma creditedTo_positive tx a : Forall (λ v, 0 < v)%Qc (creditedTo tx a).
Proof.
  unfold creditedTo, creditedOutputs. apply Forall_fmap, Forall_forall.
  intros [k v] Hin. apply list_elem_of_filter in Hin as [_ Hin].
  apply list_elem_of_bind in Hin as (vout & Hin & _).
  case_bool_decide as Hpos; [|by apply elem_of_nil in Hin].
  apply list_elem_of_fmap in Hin as (addr & [= -> ->] & _). done.
Qed.

Lemma GroupOutputsByAddress_credit tx a :
  GroupOutputsByAddress tx !! a =
    match creditedTo tx a with
    | [] => None
    | _ :: _ => Some (sumDecimal (creditedTo tx a))
    end.
Proof.
  unfold GroupOutputsByAddress. rewrite foldl_groupVout_credit, lookup_empty.
  fold (creditedOutputs tx). fold (creditedTo tx a).
  destruct (creditedTo tx a) as [|x l]; [done|].
  cbn [creditOption from_option]. by rewrite Qcplus_0_l.
Qed.

Lemma GroupOutputsByAddress_positive tx a v :
  GroupOutputsByAddress tx !! a = Some v → (0 < v)%Qc.
Proof.
  rewrite GroupOutputsByAddress_credit. pose proof (creditedTo_positive tx a) as Hpos.
  destruct (creditedTo tx a) as [|x l] eqn:E; [done|]. intros [= <-].
  by apply (sumDecimal_pos (x :: l)).
Qed.

(** X2: the value [GroupOutputsByAddress] holds for an address is the sum
    of the values of the positive outputs that pay it, an output counting
    once for each time the address is among its extracted addresses; an
    address no positive output pays has no entry; every value held is
    positive. *)
Theorem GroupOutputsByAddress_per_address tx a :
  GroupOutputsByAddress tx !! a =
    match creditedTo tx a with
    | [] => None
    | _ :: _ => Some (sumDecimal (creditedTo tx a))
    end ∧
  (∀ v, GroupOutputsByAddress tx !! a = Some v → (0 < v)%Qc).
Proof.
  split; [apply GroupOutputsByAddress_credit|apply GroupOutputsByAddress_positive].
Qed.

(** ** The emitted transfers, field by field *)

Lemma knownInputs_plain_or_fee tx networkID blockNum timestamp fee inputs order st :
  Forall2 (λ t entry, t = plainTransfer tx networkID blockNum timestamp inputs entry ∨
                      t = types.setTxFee
                            (plainTransfer tx networkID blockNum timestamp inputs entry) fee)
          (drop (length st.2)
             (foldl (knownInputsStep tx networkID blockNum timestamp fee inputs)
                    st order).2)
          order ∧
  take (length st.2)
       (foldl (knownInputsStep tx networkID blockNum timestamp fee inputs) st order).2
    = st.2.
Proof.
  revert st. induction order as [|entry order IH]; intros [assigned acc].
  - simpl. rewrite drop_all, firstn_all. by split; [constructor|].
  - cbn [foldl]. rewrite knownInputsStep_unfold.
    destruct (negb assigned && _ && _); cbn [snd].
    + destruct (IH (true, acc ++ [types.setTxFee
                 (plainTransfer tx networkID blockNum timestamp inputs entry) fee]))
        as [H1 H2]. cbn [snd] in H1, H2.
      set (res := (foldl _ _ order).2) in *.
      rewrite length_app in H1, H2. simpl in H1, H2.
      assert (Hres : res = (acc ++ [types.setTxFee
                 (plainTransfer tx networkID blockNum timestamp inputs entry) fee])
                 ++ drop (length acc + 1) res).
      { rewrite <- H2 at 1. by rewrite take_drop. }
      split.
      * rewrite Hres at 1. rewrite <- app_assoc, drop_app_length. simpl.
        constructor; [by right|done].
      * rewrite Hres. rewrite <- app_assoc. by rewrite take_app_length.
    + destruct (IH (assigned, acc ++ [plainTransfer tx networkID blockNum
                 timestamp inputs entry])) as [H1 H2]. cbn [snd] in H1, H2.
      set (res := (foldl _ _ order).2) in *.
      rewrite length_app in H1, H2. simpl in H1, H2.
      assert (Hres : res = (acc ++ [plainTransfer tx networkID blockNum
                 timestamp inputs entry]) ++ drop (length acc + 1) res).
      { rewrite <- H2 at 1. by rewrite take_drop. }
      split.
      * rewrite Hres at 1. rewrite <- app_assoc, drop_app_length. simpl.
        constructor; [by left|done].
      * rewrite Hres. rewrite <- app_assoc. by rewrite take_app_length.
Qed.

Lemma ExtractTransfers_regular_shape tx order networkID blockNum timestamp fee :
  IsCoinbase tx = false →
  Forall2 (λ t entry,
             t = plainTransfer tx networkID blockNum timestamp
                   (ExtractInputAddresses tx) entry ∨
             t = types.setTxFee
                   (plainTransfer tx networkID blockNum timestamp
                      (ExtractInputAddresses tx) entry) fee)
          (ExtractTransfers order tx networkID blockNum timestamp fee) order.
Proof.
  intros Hcb. rewrite (ExtractTransfers_regular _ _ _ _ _ _ Hcb).
  destruct (knownInputs_plain_or_fee tx networkID blockNum timestamp fee
              (ExtractInputAddresses tx) order (false, [])) as [H _].
  by rewrite drop_0 in H.
Qed.

Lemma Forall2_fmap_eq {A B C} (f : A → C) (g : B → C) (l : list A) (k : list B) :
  Forall2 (λ x y, f x = g y) l k → f <$> l = g <$> k.
Proof. induction 1 as [|x y l k Hxy _ IH]; [done|]. by rewrite !fmap_cons, Hxy, IH. Qed.

Lemma rangeOrder_lookup (m : gmap string Qc) order a v :
  rangeOrder m order → (a, v) ∈ order ↔ m !! a = Some v.
Proof. intros Horder. rewrite Horder. apply elem_of_map_to_list. Qed.

Lemma ExtractTransfers_destinations tx order networkID blockNum timestamp fee :
  IsCoinbase tx = false →
  types.ToAddress <$> ExtractTransfers order tx networkID blockNum timestamp fee
    = order.*1.
Proof.
  intros Hcb. apply Forall2_fmap_eq.
  eapply Forall2_impl; [by apply ExtractTransfers_regular_shape|].
  intros t entry [->| ->]; done.
Qed.

(** X3: on a non-coinbase transaction, under any iteration order of the
    grouped outputs, [ExtractTransfers] emits one transfer per output
    address: the destinations are pairwise distinct and are exactly the
    output addresses of the transaction. *)
Theorem ExtractTransfers_one_per_address tx order networkID blockNum timestamp fee :
  IsCoinbase tx = false →
  rangeOrder (GroupOutputsByAddress tx) order →
  NoDup (types.ToAddress <$>
           ExtractTransfers order tx networkID blockNum timestamp fee) ∧
  (∀ a, a ∈ types.ToAddress <$>
              ExtractTransfers order tx networkID blockNum timestamp fee
        ↔ outputAddress tx a) ∧
  length (ExtractTransfers order tx networkID blockNum timestamp fee)
    = size (GroupOutputsByAddress tx).
Proof.
  intros Hcb Horder.
  pose proof (ExtractTransfers_destinations tx order networkID blockNum
                timestamp fee Hcb) as Hdest.
  rewrite Hdest. split; [|split].
  - unfold rangeOrder in Horder. rewrite Horder. apply NoDup_fst_map_to_list.
  - intros a. rewrite <- (rangeOrder_keys tx order a Horder).
    rewrite list_elem_of_fmap. split.
    + intros ([k v] & -> & Hin). by exists v.
    + intros [v Hin]. by exists (a, v).
  - rewrite <- (length_fmap types.ToAddress), Hdest, length_fmap.
    unfold rangeOrder in Horder. rewrite Horder. apply length_map_to_list.
Qed.

Lemma ExtractTransfers_one_per_address_witness :
  NoDup (types.ToAddress <$>
           ExtractTransfers (map_to_list (GroupOutputsByAddress txMultisig))
             txMultisig "bitcoin" 800000 1700000000 (dec 1 1)) ∧
  (∀ a, a ∈ types.ToAddress <$>
              ExtractTransfers (map_to_list (GroupOutputsByAddress txMultisig))
                txMultisig "bitcoin" 800000 1700000000 (dec 1 1)
        ↔ outputAddress txMultisig a) ∧
  length (ExtractTransfers (map_to_list (GroupOutputsByAddress txMultisig))
            txMultisig "bitcoin" 800000 1700000000 (dec 1 1))
    = size (GroupOutputsByAddress txMultisig).
Proof.
  apply (ExtractTransfers_one_per_address txMultisig
           (map_to_list (GroupOutputsByAddress txMultisig))
           "bitcoin" 800000 1700000000 (dec 1 1)).
  - reflexivity.
  - unfold rangeOrder. reflexivity.
Defined.

Lemma ExtractTransfers_fields tx order networkID blockNum timestamp fee :
  rangeOrder (GroupOutputsByAddress tx) order →
  Forall (λ t, types.TxHash t = Tx_Txid tx ∧
               types.NetworkId t = networkID ∧
               types.BlockNumber t = blockNum ∧
               types.Timestamp t = timestamp ∧
               types.AssetAddress t = "" ∧
               (0 < types.Amount t)%Qc)
         (ExtractTransfers order tx networkID blockNum timestamp fee).
Proof.
  intros Horder. destruct (IsCoinbase tx) eqn:Hcb.
  - unfold ExtractTransfers. rewrite Hcb, coinbaseTransfers_bind.
    apply Forall_forall. intros t Hin.
    apply list_elem_of_bind in Hin as (vout & Hin & _).
    case_bool_decide as Hpos; [|by apply elem_of_nil in Hin].
    apply list_elem_of_fmap in Hin as (addr & -> & _). by repeat split.
  - pose proof (ExtractTransfers_regular_shape tx order networkID blockNum
                  timestamp fee Hcb) as Hshape.
    apply Forall_forall. intros t Hin.
    apply list_elem_of_lookup in Hin as [i Hi].
    destruct (Forall2_lookup_l _ _ _ _ _ Hshape Hi) as ([a v] & Hentry & Ht).
    assert (Hv : (0 < v)%Qc).
    { apply (GroupOutputsByAddress_positive tx a).
      apply (rangeOrder_lookup _ order); [done|].
      by eapply list_elem_of_lookup_2. }
    destruct Ht as [->| ->]; by repeat split.
Qed.


(** X4: whatever the transaction, every emitted transfer carries the
    transaction id, the network id, the block number and the timestamp it
    was extracted with, an empty asset address (native BTC) and a positive
    amount. *)
Theorem ExtractTransfers_common_fields tx order networkID blockNum timestamp fee :
  rangeOrder (GroupOutputsByAddress tx) order →
  Forall (λ t, types.TxHash t = Tx_Txid tx ∧
               types.NetworkId t = networkID ∧
               types.BlockNumber t = blockNum ∧
               types.Timestamp t = timestamp ∧
               types.AssetAddress t = "" ∧
               (0 < types.Amount t)%Qc)
         (ExtractTransfers order tx networkID blockNum timestamp fee).
Proof. apply ExtractTransfers_fields. Qed.

Lemma ExtractTransfers_common_fields_witness :
  Forall (λ t, types.TxHash t = Tx_Txid txSpend ∧
               types.NetworkId t = "bitcoin" ∧
               types.BlockNumber t = 800000%N ∧
               types.Timestamp t = 1700000000%N ∧
               types.AssetAddress t = "" ∧
               (0 < types.Amount t)%Qc)
         (ExtractTransfers (map_to_list (GroupOutputsByAddress txSpend)) txSpend
            "bitcoin" 800000 1700000000 (dec 1 100)).
Proof.
  apply (ExtractTransfers_common_fields txSpend
           (map_to_list (GroupOutputsByAddress txSpend))
           "bitcoin" 800000 1700000000 (dec 1 100)).
  unfold rangeOrder. reflexivity.
Defined.

Lemma plainTransfer_sender tx networkID blockNum timestamp inputs entry :
  types.FromAddress (plainTransfer tx networkID blockNum timestamp inputs entry)
    = senderOf inputs.
Proof. by destruct inputs as [|a [|b r]]. Qed.

(** X5: on a non-coinbase transaction every emitted transfer has type
    transfer and the same sender: the empty string when no input address
    is known, the input address when there is one, and
    ["<first>+<n-1>_more"] when there are [n > 1]. *)
Theorem ExtractTransfers_sender tx order networkID blockNum timestamp fee :
  IsCoinbase tx = false →
  Forall (λ t, types.FromAddress t = senderOf (ExtractInputAddresses tx) ∧
               types.TxType t = constant.TxnTypeTransfer)
         (ExtractTransfers order tx networkID blockNum timestamp fee).
Proof.
  intros Hcb.
  pose proof (ExtractTransfers_regular_shape tx order networkID blockNum
                timestamp fee Hcb) as Hshape.
  apply Forall_forall. intros t Hin. apply list_elem_of_lookup in Hin as [i Hi].
  destruct (Forall2_lookup_l _ _ _ _ _ Hshape Hi) as (entry & _ & Ht).
  pose proof (plainTransfer_sender tx networkID blockNum timestamp
                (ExtractInputAddresses tx) entry) as Hfrom.
  destruct Ht as [->| ->]; by split.
Qed.

Lemma ExtractTransfers_sender_witness :
  Forall (λ t, types.FromAddress t = senderOf (ExtractInputAddresses txSpend) ∧
               types.TxType t = constant.TxnTypeTransfer)
         (ExtractTransfers (map_to_list (GroupOutputsByAddress txSpend)) txSpend
            "bitcoin" 800000 1700000000 (dec 1 100)).
Proof.
  apply (ExtractTransfers_sender txSpend
           (map_to_list (GroupOutputsByAddress txSpend))
           "bitcoin" 800000 1700000000 (dec 1 100)).
  reflexivity.
Defined.

(** ** Total of the fees carried *)

Lemma sum_fee_zero (l : list types.Transaction) :
  Forall (λ t, types.TxFee t = 0%Qc) l → sumDecimal (types.TxFee <$> l) = 0%Qc.
Proof.
  induction 1 as [|t l Ht _ IH]; [done|].
  rewrite fmap_cons, sumDecimal_cons, Ht, IH. ring.
Qed.

Lemma ExtractTransfers_coinbase_fee tx order networkID blockNum timestamp fee :
  IsCoinbase tx = true →
  sumDecimal (types.TxFee <$>
                ExtractTransfers order tx networkID blockNum timestamp fee) = 0%Qc.
Proof.
  intros Hcb. apply sum_fee_zero. unfold ExtractTransfers.
  rewrite Hcb, coinbaseTransfers_bind. apply Forall_forall. intros t Hin.
  apply list_elem_of_bind in Hin as (vout & Hin & _).
  case_bool_decide; [|by apply elem_of_nil in Hin].
  by apply list_elem_of_fmap in Hin as (addr & -> & _).
Qed.

Lemma ExtractTransfers_fee_total tx order networkID blockNum timestamp fee :
  IsCoinbase tx = false →
  rangeOrder (GroupOutputsByAddress tx) order →
  ((∃ a, outputAddress tx a ∧ a ∉ ExtractInputAddresses tx) →
     sumDecimal (types.TxFee <$>
                   ExtractTransfers order tx networkID blockNum timestamp fee)
       = fee) ∧
  ((∀ a, outputAddress tx a → a ∈ ExtractInputAddresses tx) →
     sumDecimal (types.TxFee <$>
                   ExtractTransfers order tx networkID blockNum timestamp fee)
       = 0%Qc).
Proof.
  intros Hcb Horder. split.
  - intros (a & Hout & Hnin). destruct (decide (fee = 0%Qc)) as [->|Hfee].
    + apply sum_fee_zero.
      pose proof (ExtractTransfers_regular_shape tx order networkID blockNum
                    timestamp 0%Qc Hcb) as Hshape.
      apply Forall_forall. intros t Hin. apply list_elem_of_lookup in Hin as [i Hi].
      destruct (Forall2_lookup_l _ _ _ _ _ Hshape Hi) as (entry & _ & Ht).
      by destruct Ht as [->| ->].
    + rewrite (ExtractTransfers_regular _ _ _ _ _ _ Hcb).
      apply (rangeOrder_keys _ _ _ Horder) in Hout as [v Hv].
      destruct (first_outside_split (ExtractInputAddresses tx) order)
        as (pre & entry & post & -> & Hpre & Hentry).
      { apply Exists_exists. by exists (a, v). }
      rewrite knownInputs_first_payee by done.
      rewrite fmap_app, fmap_cons, sumDecimal_app, sumDecimal_cons.
      rewrite !sum_fee_zero by apply plain_fee_zero. simpl. ring.
  - intros Hall. apply sum_fee_zero.
    rewrite (ExtractTransfers_regular _ _ _ _ _ _ Hcb).
    rewrite knownInputs_no_assignment; [apply plain_fee_zero|].
    right. apply Forall_forall. intros [a v] Hin. simpl. apply Hall.
    apply (rangeOrder_keys _ _ _ Horder). by exists v.
Qed.

(** X6: the fees carried by the transfers of a non-coinbase transaction add
    up to the fee it was extracted with when some output address is not an
    input address, and to zero when every output address is an input
    address; this holds for every fee, zero and negative included, and for
    every iteration order. *)
Theorem ExtractTransfers_fee_conserved tx order networkID blockNum timestamp fee :
  IsCoinbase tx = false →
  rangeOrder (GroupOutputsByAddress tx) order →
  ((∃ a, outputAddress tx a ∧ a ∉ ExtractInputAddresses tx) →
     sumDecimal (types.TxFee <$>
                   ExtractTransfers order tx networkID blockNum timestamp fee)
       = fee) ∧
  ((∀ a, outputAddress tx a → a ∈ ExtractInputAddresses tx) →
     sumDecimal (types.TxFee <$>
                   ExtractTransfers order tx networkID blockNum timestamp fee)
       = 0%Qc).
Proof. apply ExtractTransfers_fee_total. Qed.

Lemma ExtractTransfers_fee_conserved_witness :
  ((∃ a, outputAddress txSpend a ∧ a ∉ ExtractInputAddresses txSpend) →
     sumDecimal (types.TxFee <$>
                   ExtractTransfers (map_to_list (GroupOutputsByAddress txSpend))
                     txSpend "bitcoin" 800000 1700000000 (dec 1 100))
       = dec 1 100) ∧
  ((∀ a, outputAddress txSpend a → a ∈ ExtractInputAddresses txSpend) →
     sumDecimal (types.TxFee <$>
                   ExtractTransfers (map_to_list (GroupOutputsByAddress txSpend))
                     txSpend "bitcoin" 800000 1700000000 (dec 1 100))
       = 0%Qc).
Proof.
  apply (ExtractTransfers_fee_conserved txSpend
           (map_to_list (GroupOutputsByAddress txSpend))
           "bitcoin" 800000 1700000000 (dec 1 100)).
  - reflexivity.
  - unfold rangeOrder. reflexivity.
Defined.

(** ** Fee bounds *)

Lemma sumDecimal_outputValues_nonneg tx : (0 ≤ sumDecimal (outputValues tx))%Qc.
Proof.
  apply sumDecimal_nonneg, Forall_forall. intros v Hv.
  unfold outputValues in Hv. apply list_elem_of_bind in Hv as (vout & Hv & _).
  case_bool_decide as Hpos; [|by apply elem_of_nil in Hv].
  apply list_elem_of_singleton in Hv as ->. by apply Qclt_le_weak.
Qed.

Lemma sumDecimal_inputValues_nonneg tx : (0 ≤ sumDecimal (inputValues tx))%Qc.
Proof.
  apply sumDecimal_nonneg, Forall_forall. intros v Hv.
  unfold inputValues in Hv. apply list_elem_of_bind in Hv as (vin & Hv & _).
  destruct (Vin_PrevOut vin) as [po|]; [|by apply elem_of_nil in Hv].
  case_bool_decide as Hpos; [|by apply elem_of_nil in Hv].
  apply list_elem_of_singleton in Hv as ->. by apply Qclt_le_weak.
Qed.

Lemma Qcle_minus_nonneg (x y : Qc) : (0 ≤ y)%Qc → (x - y ≤ x)%Qc.
Proof.
  intros Hy. apply (proj2 (Qcle_minus_iff _ _)).
  by replace (x + - (x - y))%Qc with y by ring.
Qed.

(** X7: the fee never exceeds the input total; it is zero whenever the
    input total does not exceed the output total; and for a non-coinbase
    transaction with some [prevOut] whose input total covers its output
    total, input total = output total + fee. *)
Theorem CalculateFee_balance tx :
  (CalculateFee tx ≤ CalculateTotalInput tx)%Qc ∧
  ((CalculateTotalInput tx ≤ CalculateTotalOutput tx)%Qc →
     CalculateFee tx = 0%Qc) ∧
  (IsCoinbase tx = false ∧ HasPrevOutData tx = true ∧
   (CalculateTotalOutput tx ≤ CalculateTotalInput tx)%Qc →
     CalculateTotalInput tx = (CalculateTotalOutput tx + CalculateFee tx)%Qc).
Proof.
  rewrite CalculateFee_unfold, CalculateTotalInput_sum, CalculateTotalOutput_sum.
  unfold HasPrevOutData, clampZero.
  pose proof (sumDecimal_outputValues_nonneg tx) as Hout.
  pose proof (sumDecimal_inputValues_nonneg tx) as Hin.
  split; [|split].
  - destruct (IsCoinbase tx); [done|].
    destruct (anyPrevOut (Tx_Vin tx)); [|done].
    case_bool_decide; [done|]. by apply Qcle_minus_nonneg.
  - intros Hle. destruct (IsCoinbase tx); [done|].
    destruct (anyPrevOut (Tx_Vin tx)); [|done].
    case_bool_decide as Hneg; [done|].
    apply Qcnot_lt_le in Hneg. apply Qcle_antisym; [|done].
    apply (proj2 (Qcle_minus_iff _ _)).
    replace (0 + - (sumDecimal (inputValues tx) - sumDecimal (outputValues tx)))%Qc
      with (sumDecimal (outputValues tx) + - sumDecimal (inputValues tx))%Qc by ring.
    by apply (proj1 (Qcle_minus_iff _ _)).
  - intros (-> & -> & Hle). case_bool_decide as Hneg; [|ring].
    exfalso. apply (proj1 (Qcle_minus_iff _ _)) in Hle.
    apply (Qclt_not_le _ _ Hneg).
    by replace (sumDecimal (inputValues tx) - sumDecimal (outputValues tx))%Qc
      with (sumDecimal (inputValues tx) + - sumDecimal (outputValues tx))%Qc by ring.
Qed.

Lemma Qc_of_Z_zero (n : Z) : Qc_of_Z n = 0%Qc → n = 0%Z.
Proof.
  intros H. apply (f_equal this) in H. simpl in H.
  by injection H.
Qed.

Section FeeRateFacts.
Context (divRound : Decimal → Decimal → Decimal).

(** X8: [CalculateFeeRate] and [SatoshiToBTC] never divide by zero: the
    rate of a transaction whose fee is zero (a coinbase among them) or
    whose [Vsize] is zero is zero, and every other rate is the rounded
    quotient of the fee in satoshis by the virtual size. *)
Theorem CalculateFeeRate_no_panic tx satoshi :
  CalculateFeeRate divRound tx =
    Returned (if IsZero (CalculateFee tx) || bool_decide (Tx_Vsize tx = 0%Z)
              then 0%Qc
              else divRound (BTCToSatoshi (CalculateFee tx))
                            (NewFromInt (Tx_Vsize tx))) ∧
  (IsCoinbase tx = true → CalculateFeeRate divRound tx = Returned 0%Qc) ∧
  SatoshiToBTC divRound satoshi =
    Returned (divRound satoshi (NewFromInt BTC_TO_SATOSHI)).
Proof.
  split; [|split].
  - unfold CalculateFeeRate, Div, BTCToSatoshi.
    destruct (IsZero (CalculateFee tx)); [done|]. simpl.
    case_bool_decide as Hv; [done|].
    rewrite bool_decide_eq_false_2; [done|].
    intros Hz. by apply Qc_of_Z_zero in Hz.
  - intros Hcb. unfold CalculateFeeRate, CalculateFee. by rewrite Hcb.
  - unfold SatoshiToBTC, Div. rewrite bool_decide_eq_false_2; [done|].
    intros Hz. by apply Qc_of_Z_zero in Hz.
Qed.

End FeeRateFacts.

Lemma Qc_of_Z_le (a b : Z) : (a ≤ b)%Z → (Qc_of_Z a ≤ Qc_of_Z b)%Qc.
Proof. intros H. unfold Qcle, Qle. simpl. lia. Qed.

(** X9: [EstimateFeePriority] is monotone: a higher fee rate never gets a
    lower priority; rates below 10 sat/vB, negative ones included, are
    ["very_low"]. *)
Theorem EstimateFeePriority_monotone r1 r2 :
  (r1 ≤ r2)%Qc →
  (priorityRank (EstimateFeePriority r1) ≤ priorityRank (EstimateFeePriority r2))%nat ∧
  ((r1 < NewFromInt 10)%Qc → EstimateFeePriority r1 = "very_low").
Proof.
  intros Hle. unfold EstimateFeePriority, GreaterThanOrEqual.
  assert (H1 : (NewFromInt 10 ≤ NewFromInt 50)%Qc) by by apply Qc_of_Z_le.
  assert (H2 : (NewFromInt 50 ≤ NewFromInt 100)%Qc) by by apply Qc_of_Z_le.
  split.
  - repeat case_bool_decide; try (vm_compute; lia); exfalso;
      eauto 7 using Qcle_trans.
  - intros Hlt. apply Qclt_not_le in Hlt.
    rewrite !bool_decide_eq_false_2; eauto using Qcle_trans.
Qed.

Lemma EstimateFeePriority_monotone_witness :
  (priorityRank (EstimateFeePriority (dec 12 1))
     ≤ priorityRank (EstimateFeePriority (dec 75 1)))%nat ∧
  ((dec 12 1 < NewFromInt 10)%Qc → EstimateFeePriority (dec 12 1) = "very_low").
Proof.
  apply (EstimateFeePriority_monotone (dec 12 1) (dec 75 1)).
  by vm_compute.
Defined.

(** ** Block conversion *)

Lemma processTxs_concat networkId rangeOrders height time i txs transactions :
  processTxs networkId rangeOrders height time i txs transactions =
    transactions ++
    concat (imap (λ k tx, ExtractTransfers (rangeOrders (i + k)%nat) tx networkId
                            height time (CalculateFee tx)) txs).
Proof.
  revert i transactions. induction txs as [|tx txs IH]; intros i transactions.
  - simpl. by rewrite app_nil_r.
  - cbn [processTxs]. rewrite IH, imap_cons. cbn [concat].
    rewrite Nat.add_0_r, <- app_assoc. do 3 f_equal.
    apply imap_ext. intros k x _. simpl. by rewrite Nat.add_succ_r.
Qed.

Lemma Forall_concat_imap {A B} (P : B → Prop) (f : nat → A → list B) (l : list A) :
  (∀ k x, l !! k = Some x → Forall P (f k x)) → Forall P (concat (imap f l)).
Proof.
  revert f. induction l as [|x l IH]; intros f Hf; [constructor|].
  rewrite imap_cons. cbn [concat]. apply Forall_app. split.
  - by apply (Hf 0%nat).
  - apply IH. intros k y Hk. by apply (Hf (S k)).
Qed.

(** X10: the block [processBlock] builds from a non-nil block carries the
    height and time converted to [uint64], the hash and the previous
    hash; each of its transfers carries that block number, that timestamp
    and the network id, has a positive amount, and has the id of a
    transaction of the block as its hash. *)
Theorem processBlock_consistent networkId rangeOrders blk :
  rangeOrdersFor blk rangeOrders →
  ∃ nb, processBlock networkId rangeOrders (Some blk) = Some nb ∧
        NB_Number nb = uint64_of_int64 (Block_Height blk) ∧
        NB_Hash nb = Block_Hash blk ∧
        NB_ParentHash nb = Block_PreviousBlockHash blk ∧
        NB_Timestamp nb = uint64_of_int64 (Block_Time blk) ∧
        Forall (λ t, types.BlockNumber t = NB_Number nb ∧
                     types.Timestamp t = NB_Timestamp nb ∧
                     types.NetworkId t = networkId ∧
                     (0 < types.Amount t)%Qc ∧
                     ∃ tx, tx ∈ Block_Tx blk ∧ types.TxHash t = Tx_Txid tx)
               (NB_Transactions nb).
Proof.
  intros Horders. eexists. split; [reflexivity|]. cbn.
  split; [done|]. split; [done|]. split; [done|]. split; [done|].
  rewrite processTxs_concat. cbn [app].
  apply Forall_concat_imap. intros k tx Hk.
  eapply Forall_impl;
    [apply ExtractTransfers_fields, (Horders k tx Hk)|].
  intros t (Hh & Hn & Hb & Ht & _ & Ha). repeat split; try done.
  exists tx. split; [by eapply list_elem_of_lookup_2|done].
Qed.

Lemma processBlock_consistent_witness :
  ∃ nb, processBlock "bitcoin" sampleOrders (Some sampleBlock) = Some nb ∧
        NB_Number nb = uint64_of_int64 (Block_Height sampleBlock) ∧
        NB_Hash nb = Block_Hash sampleBlock ∧
        NB_ParentHash nb = Block_PreviousBlockHash sampleBlock ∧
        NB_Timestamp nb = uint64_of_int64 (Block_Time sampleBlock) ∧
        Forall (λ t, types.BlockNumber t = NB_Number nb ∧
                     types.Timestamp t = NB_Timestamp nb ∧
                     types.NetworkId t = "bitcoin" ∧
                     (0 < types.Amount t)%Qc ∧
                     ∃ tx, tx ∈ Block_Tx sampleBlock ∧ types.TxHash t = Tx_Txid tx)
               (NB_Transactions nb).
Proof.
  apply (processBlock_consistent "bitcoin" sampleOrders sampleBlock).
  intros i tx Hi. unfold sampleOrders, rangeOrder. rewrite Hi. reflexivity.
Defined.

(** ** Block totals *)

Lemma ExtractTransfers_fee_cases tx order networkID blockNum timestamp fee :
  sumDecimal (types.TxFee <$>
                ExtractTransfers order tx networkID blockNum timestamp fee) = fee ∨
  sumDecimal (types.TxFee <$>
                ExtractTransfers order tx networkID blockNum timestamp fee) = 0%Qc.
Proof.
  destruct (IsCoinbase tx) eqn:Hcb.
  { right. by apply ExtractTransfers_coinbase_fee. }
  destruct (decide (fee = 0%Qc)) as [->|Hfee].
  { right. apply sum_fee_zero.
    pose proof (ExtractTransfers_regular_shape tx order networkID blockNum
                  timestamp 0%Qc Hcb) as Hshape.
    apply Forall_forall. intros t Hin. apply list_elem_of_lookup in Hin as [i Hi].
    destruct (Forall2_lookup_l _ _ _ _ _ Hshape Hi) as (entry & _ & Ht).
    by destruct Ht as [->| ->]. }
  rewrite (ExtractTransfers_regular _ _ _ _ _ _ Hcb).
  destruct (decide (Exists (λ e : string * Qc, e.1 ∉ ExtractInputAddresses tx) order))
    as [Hex|Hnex].
  - left. destruct (first_outside_split _ _ Hex)
      as (pre & entry & post & -> & Hpre & Hentry).
    rewrite knownInputs_first_payee by done.
    rewrite fmap_app, fmap_cons, sumDecimal_app, sumDecimal_cons.
    rewrite !sum_fee_zero by apply plain_fee_zero. simpl. ring.
  - right. apply sum_fee_zero.
    rewrite knownInputs_no_assignment; [apply plain_fee_zero|].
    right. apply Forall_forall. intros e He.
    destruct (decide (e.1 ∈ ExtractInputAddresses tx)) as [|Hout]; [done|].
    exfalso. apply Hnex, Exists_exists. by exists e.
Qed.

Lemma CalculateFee_nonneg tx : (0 ≤ CalculateFee tx)%Qc.
Proof.
  rewrite CalculateFee_unfold. destruct (IsCoinbase tx); [done|].
  destruct (anyPrevOut (Tx_Vin tx)); [apply clampZero_nonneg|done].
Qed.

Lemma processTxs_fee_bound networkId rangeOrders height time txs :
  ∀ i,
  (0 ≤ sumDecimal (types.TxFee <$>
         concat (imap (λ k tx, ExtractTransfers (rangeOrders (i + k)%nat) tx
                                 networkId height time (CalculateFee tx)) txs))
     ≤ sumDecimal (CalculateFee <$> txs))%Qc.
Proof.
  induction txs as [|tx txs IH]; intros i; [done|].
  rewrite imap_cons. cbn [concat]. rewrite fmap_app, sumDecimal_app, fmap_cons,
    sumDecimal_cons.
  assert (Hrest : (0 ≤ sumDecimal (types.TxFee <$>
       concat (imap ((λ k tx0, ExtractTransfers (rangeOrders (i + k)%nat) tx0
                       networkId height time (CalculateFee tx0)) ∘ S) txs))
     ≤ sumDecimal (CalculateFee <$> txs))%Qc).
  { specialize (IH (S i)).
    erewrite (imap_ext _ (λ k tx0, ExtractTransfers (rangeOrders (S i + k)%nat)
                tx0 networkId height time (CalculateFee tx0))); [exact IH|].
    intros k x _. simpl. by rewrite Nat.add_succ_r. }
  pose proof (CalculateFee_nonneg tx) as Hfee.
  destruct (ExtractTransfers_fee_cases tx (rangeOrders (i + 0)%nat) networkId
              height time (CalculateFee tx)) as [-> | ->].
  - split; [by apply Qcplus_nonneg_nonneg; [|apply Hrest]|].
    apply Qcplus_le_compat; [done|apply Hrest].
  - split; [by apply Qcplus_nonneg_nonneg; [|apply Hrest]|].
    apply Qcplus_le_compat; [done|apply Hrest].
Qed.

Lemma processTxs_amounts networkId rangeOrders height time txs :
  ∀ i,
  (∀ k tx, txs !! k = Some tx →
           rangeOrder (GroupOutputsByAddress tx) (rangeOrders (i + k)%nat)) →
  sumDecimal (types.Amount <$>
     concat (imap (λ k tx, ExtractTransfers (rangeOrders (i + k)%nat) tx
                             networkId height time (CalculateFee tx)) txs))
  = sumDecimal (txs ≫= λ tx, snd <$> creditedOutputs tx).
Proof.
  induction txs as [|tx txs IH]; intros i Horders; [done|].
  rewrite imap_cons, bind_cons. cbn [concat].
  rewrite fmap_app, !sumDecimal_app.
  rewrite ExtractTransfers_amount_total by apply (Horders 0%nat tx eq_refl).
  f_equal. rewrite <- (IH (S i)).
  - do 3 f_equal. apply imap_ext. intros k x _. simpl. by rewrite Nat.add_succ_r.
  - intros k x Hk. rewrite Nat.add_succ_comm. by apply (Horders (S k)).
Qed.

(** X11: over a whole block, the fees carried by the transfers of
    [processBlock] add up to at least zero and at most the sum of the
    transactions' fees (fees of transactions whose outputs all go back to
    input addresses are dropped), and the amounts add up to the values of
    the positive outputs, each counted once per extracted address. *)
Theorem processBlock_totals networkId rangeOrders blk :
  rangeOrdersFor blk rangeOrders →
  ∃ nb, processBlock networkId rangeOrders (Some blk) = Some nb ∧
        (0 ≤ sumDecimal (types.TxFee <$> NB_Transactions nb)
           ≤ sumDecimal (blockFees blk))%Qc ∧
        sumDecimal (types.Amount <$> NB_Transactions nb)
          = sumDecimal (blockCredits blk).
Proof.
  intros Horders. eexists. split; [reflexivity|]. cbn.
  rewrite processTxs_concat. cbn [app]. split.
  - apply processTxs_fee_bound.
  - by apply processTxs_amounts.
Qed.

Lemma processBlock_totals_witness :
  ∃ nb, processBlock "bitcoin" sampleOrders (Some sampleBlock) = Some nb ∧
        (0 ≤ sumDecimal (types.TxFee <$> NB_Transactions nb)
           ≤ sumDecimal (blockFees sampleBlock))%Qc ∧
        sumDecimal (types.Amount <$> NB_Transactions nb)
          = sumDecimal (blockCredits sampleBlock).
Proof.
  apply (processBlock_totals "bitcoin" sampleOrders sampleBlock).
  intros i tx Hi. unfold sampleOrders, rangeOrder. rewrite Hi. reflexivity.
Defined.

(** ** Enrichment: failing and succeeding calls *)

Lemma setBlockTx_same block : setBlockTx block (Block_Tx block) = block.
Proof. by destruct block. Qed.

Lemma setTxVin_same tx : setTxVin tx (Tx_Vin tx) = tx.
Proof. by destruct tx. Qed.

Section EnrichmentCalls.
Context (GetRawTransaction : nat → nat → string → Z → result Transaction).

Lemma enrichVins_all_fail i j vins :
  (∀ k txid, ∃ err, GetRawTransaction i k txid 1 = Err err) →
  enrichVins GetRawTransaction i j vins = Returned vins.
Proof.
  intros Hfail. revert j. induction vins as [|vin vins IH]; intros j; [done|].
  cbn [enrichVins]. unfold enrichVin.
  destruct (Hfail j (Vin_Txid vin)) as [err ->].
  destruct (_ || _); simpl; by rewrite IH.
Qed.

Lemma enrichTxs_all_fail i txs :
  (∀ i' k txid, ∃ err, GetRawTransaction i' k txid 1 = Err err) →
  enrichTxs GetRawTransaction i txs = Returned txs.
Proof.
  intros Hfail. revert i. induction txs as [|tx txs IH]; intros i; [done|].
  cbn [enrichTxs]. unfold enrichTx.
  destruct (IsCoinbase tx); [simpl; by rewrite IH|].
  destruct (HasPrevOutData tx); [simpl; by rewrite IH|].
  rewrite enrichVins_all_fail by apply Hfail. simpl.
  by rewrite setTxVin_same, IH.
Qed.

(** X12: when every [GetRawTransaction] call fails,
    [EnrichBlockWithPrevOuts] leaves the block exactly as it was and still
    returns a nil error. *)
Theorem EnrichBlockWithPrevOuts_all_calls_fail block :
  (∀ i j txid, ∃ err, GetRawTransaction i j txid 1 = Err err) →
  EnrichBlockWithPrevOuts GetRawTransaction (Some block)
    = Returned (Some block, None).
Proof.
  intros Hfail. unfold EnrichBlockWithPrevOuts.
  rewrite enrichTxs_all_fail by done. simpl. by rewrite setBlockTx_same.
Qed.

Lemma enrichVins_all_resolved i j vins :
  (∀ k vin, vins !! k = Some vin →
     Vin_Txid vin ≠ "" ∧ Vin_Coinbase vin = "" ∧
     ∃ prevTx, GetRawTransaction i (j + k)%nat (Vin_Txid vin) 1 = Ok prevTx ∧
               (N.to_nat (Vin_Vout vin) < length (Tx_Vout prevTx))%nat) →
  ∃ vins', enrichVins GetRawTransaction i j vins = Returned vins' ∧
           Forall2 (λ vin vin',
                      ∃ prevTx prevOut k,
                        GetRawTransaction i k (Vin_Txid vin) 1 = Ok prevTx ∧
                        Tx_Vout prevTx !! N.to_nat (Vin_Vout vin) = Some prevOut ∧
                        vin' = resolvedVin vin prevOut)
                   vins vins'.
Proof.
  revert j. induction vins as [|vin vins IH]; intros j Hall.
  - exists []. by split; [|constructor].
  - destruct (Hall 0%nat vin eq_refl) as (Htxid & Hcb & prevTx & Hcall & Hidx).
    rewrite Nat.add_0_r in Hcall.
    destruct (IH (S j)) as (vins' & Hvins & Hres).
    { intros k v Hk. rewrite Nat.add_succ_comm. by apply (Hall (S k)). }
    destruct (lookup_lt_is_Some_2 _ _ Hidx) as [prevOut Hout].
    exists (resolvedVin vin prevOut :: vins'). cbn [enrichVins]. unfold enrichVin.
    rewrite (bool_decide_eq_false_2 (Vin_Txid vin = "")) by done.
    rewrite (bool_decide_eq_false_2 (Vin_Coinbase vin ≠ "")) by (intros ?; done).
    cbn [orb]. rewrite Hcall, (bool_decide_eq_true_2 _ Hidx).
    unfold indexSlice. rewrite Hout. simpl. rewrite Hvins. simpl.
    split; [done|]. constructor; [|done]. by exists prevTx, prevOut, j.
Qed.

Lemma enrichTxs_lookup i txs k tx :
  txs !! k = Some tx →
  ∃ txs', enrichTxs GetRawTransaction i txs = Returned txs' ∧
          ∃ tx', txs' !! k = Some tx' ∧
                 enrichTx GetRawTransaction (i + k)%nat tx = Returned tx'.
Proof.
  revert i k. induction txs as [|t txs IH]; intros i k Hk; [done|].
  destruct (enrichTx_spec GetRawTransaction i t) as (t' & Ht & _).
  destruct (enrichTxs_spec GetRawTransaction (S i) txs) as (txs' & Htxs & _).
  exists (t' :: txs'). cbn [enrichTxs]. rewrite Ht. simpl. rewrite Htxs. simpl.
  split; [done|]. destruct k as [|k]; simpl in Hk.
  - injection Hk as ->. exists t'. by rewrite Nat.add_0_r.
  - destruct (IH (S i) k Hk) as (txs'' & Htxs'' & tx' & Hl & He).
    rewrite Htxs in Htxs''. injection Htxs'' as <-.
    exists tx'. split; [done|]. by rewrite Nat.add_succ_r.
Qed.

(** X13: a non-coinbase transaction without [prevOut] data whose inputs
    can all be resolved comes out of [EnrichBlockWithPrevOuts] with every
    input carrying the value and script of the output it refers to; its
    fee is then the strict one: input total minus output total, clamped
    at zero. *)
Theorem EnrichBlockWithPrevOuts_resolves block i tx :
  Block_Tx block !! i = Some tx →
  IsCoinbase tx = false →
  HasPrevOutData tx = false →
  allInputsResolvable GetRawTransaction i tx →
  ∃ block' tx',
    EnrichBlockWithPrevOuts GetRawTransaction (Some block)
      = Returned (Some block', None) ∧
    Block_Tx block' !! i = Some tx' ∧
    Forall2 (λ vin vin',
               ∃ prevTx prevOut k,
                 GetRawTransaction i k (Vin_Txid vin) 1 = Ok prevTx ∧
                 Tx_Vout prevTx !! N.to_nat (Vin_Vout vin) = Some prevOut ∧
                 vin' = resolvedVin vin prevOut)
            (Tx_Vin tx) (Tx_Vin tx') ∧
    CalculateFee tx' = strictFee tx'.
Proof.
  intros Hi Hcb Hprev Hall.
  destruct (enrichTxs_lookup 0 (Block_Tx block) i tx Hi)
    as (txs' & Htxs & tx' & Hi' & Htx').
  simpl in Htx'. unfold enrichTx in Htx'. rewrite Hcb, Hprev in Htx'.
  destruct (enrichVins_all_resolved i 0 (Tx_Vin tx)) as (vins' & Hvins & Hres).
  { intros k vin Hk. by apply Hall. }
  rewrite Hvins in Htx'. simpl in Htx'. injection Htx' as <-.
  exists (setBlockTx block txs'), (setTxVin tx vins').
  unfold EnrichBlockWithPrevOuts. rewrite Htxs. simpl.
  split; [done|]. split; [done|]. split; [done|].
  apply CalculateFee_all_resolved. simpl.
  clear -Hres. induction Hres as [|vin vin' l l' (p & o & k & _ & _ & ->) _ IH];
    constructor; [done|done].
Qed.

End EnrichmentCalls.

Lemma EnrichBlockWithPrevOuts_all_calls_fail_witness :
  EnrichBlockWithPrevOuts nodeUnreachable (Some blockUnresolved)
    = Returned (Some blockUnresolved, None).
Proof.
  apply (EnrichBlockWithPrevOuts_all_calls_fail nodeUnreachable blockUnresolved).
  intros i j txid. by eexists.
Defined.

Lemma EnrichBlockWithPrevOuts_resolves_witness :
  ∃ block' tx',
    EnrichBlockWithPrevOuts nodeKnowsSpend (Some blockUnresolved)
      = Returned (Some block', None) ∧
    Block_Tx block' !! 1%nat = Some tx' ∧
    Forall2 (λ vin vin',
               ∃ prevTx prevOut k,
                 nodeKnowsSpend 1 k (Vin_Txid vin) 1 = Ok prevTx ∧
                 Tx_Vout prevTx !! N.to_nat (Vin_Vout vin) = Some prevOut ∧
                 vin' = resolvedVin vin prevOut)
            (Tx_Vin txUnresolved) (Tx_Vin tx') ∧
    CalculateFee tx' = strictFee tx'.
Proof.
  apply (EnrichBlockWithPrevOuts_resolves nodeKnowsSpend blockUnresolved 1
           txUnresolved).
  - reflexivity.
  - reflexivity.
  - reflexivity.
  - intros [|j] vin Hj; simpl in Hj; [|done]. injection Hj as <-.
    split; [done|]. split; [reflexivity|]. exists txSpend.
    split; [reflexivity|]. simpl. lia.
Defined.

(** ** The façade: one call per method *)

Section ClientMethodFacts.
Context (node : list RPCCall → RPCCall → result RawMessage).
Context (unmarshalBlock : RawMessage → option Block).
Context (unmarshalString : RawMessage → option string).
Context (unmarshalUint64 : RawMessage → option N).
Context (unmarshalTransaction : RawMessage → option Transaction).
Context (unmarshalDecoded : RawMessage → option DecodedRawTransaction).
Context (unmarshalTxOut : RawMessage → option TxOut).

Lemma bind_CallRPC_trace {A} method params (k : string → RPC A) trace :
  (∀ resp t, (k resp t).1 = t) →
  ((CallRPC node method params ≫= k) trace).1 = trace ++ [mkCall method params].
Proof.
  intros Hk. unfold mbind, RPC_bind, CallRPC.
  destruct (node trace _); [apply Hk|done].
Qed.

Lemma bind_CallRPC_error {A} method params (k : string → RPC A) trace err :
  node trace (mkCall method params) = Err err →
  (CallRPC node method params ≫= k) trace
    = (trace ++ [mkCall method params], Err err).
Proof. intros Herr. unfold mbind, RPC_bind, CallRPC. by rewrite Herr. Qed.

(** X14: [GetBlockCount], [GetBlockHash], [GetBlockVerbose],
    [GetRawTransaction], [DecodeRawTransaction] and [GetTxOut] each issue
    exactly one call, whatever the node answers, and hand an error of
    that call back unchanged. *)
Theorem facade_single_call trace :
  (GetBlockCount node unmarshalUint64 trace).1
    = trace ++ [mkCall "getblockcount" []] ∧
  (∀ height, (GetBlockHash node unmarshalString height trace).1
               = trace ++ [getblockhashCall height]) ∧
  (∀ hash, (GetBlockVerbose node unmarshalBlock hash trace).1
             = trace ++ [getblockCall hash 2]) ∧
  (∀ txid verbosity,
     (GetRawTransaction node unmarshalTransaction txid verbosity trace).1
       = trace ++ [mkCall "getrawtransaction" [PString txid; PInt verbosity]]) ∧
  (∀ hexTx, (DecodeRawTransaction node unmarshalDecoded hexTx trace).1
              = trace ++ [mkCall "decoderawtransaction" [PString hexTx]]) ∧
  (∀ txid vout includeMempool,
     (GetTxOut node unmarshalTxOut txid vout includeMempool trace).1
       = trace ++ [mkCall "gettxout"
                     [PString txid; PInt (Z.of_N vout); PBool includeMempool]]) ∧
  (∀ err,
     (node trace (mkCall "getblockcount" []) = Err err →
        (GetBlockCount node unmarshalUint64 trace).2 = Err err) ∧
     (∀ height, node trace (getblockhashCall height) = Err err →
        (GetBlockHash node unmarshalString height trace).2 = Err err) ∧
     (∀ hash, node trace (getblockCall hash 2) = Err err →
        (GetBlockVerbose node unmarshalBlock hash trace).2 = Err err) ∧
     (∀ txid verbosity,
        node trace (mkCall "getrawtransaction" [PString txid; PInt verbosity])
          = Err err →
        (GetRawTransaction node unmarshalTransaction txid verbosity trace).2
          = Err err) ∧
     (∀ hexTx, node trace (mkCall "decoderawtransaction" [PString hexTx]) = Err err →
        (DecodeRawTransaction node unmarshalDecoded hexTx trace).2 = Err err) ∧
     (∀ txid vout includeMempool,
        node trace (mkCall "gettxout"
                      [PString txid; PInt (Z.of_N vout); PBool includeMempool])
          = Err err →
        (GetTxOut node unmarshalTxOut txid vout includeMempool trace).2 = Err err)).
Proof.
  repeat split.
  - apply bind_CallRPC_trace. intros resp t. by destruct (unmarshalUint64 resp).
  - intros height. apply bind_CallRPC_trace. intros resp t.
    by destruct (unmarshalString resp).
  - intros hash. apply bind_CallRPC_trace. intros resp t.
    by destruct (unmarshalBlock resp).
  - intros txid verbosity. apply bind_CallRPC_trace. intros resp t.
    case_bool_decide; [done|]. by destruct (unmarshalTransaction resp).
  - intros hexTx. apply bind_CallRPC_trace. intros resp t.
    by destruct (unmarshalDecoded resp).
  - intros txid vout includeMempool. apply bind_CallRPC_trace. intros resp t.
    case_bool_decide; [done|]. by destruct (unmarshalTxOut resp).
  - intros Herr. unfold GetBlockCount. by rewrite (bind_CallRPC_error _ _ _ _ _ Herr).
  - intros height Herr. unfold GetBlockHash.
    by rewrite (bind_CallRPC_error _ _ _ _ _ Herr).
  - intros hash Herr. unfold GetBlockVerbose.
    by rewrite (bind_CallRPC_error _ _ _ _ _ Herr).
  - intros txid verbosity Herr. unfold GetRawTransaction.
    by rewrite (bind_CallRPC_error _ _ _ _ _ Herr).
  - intros hexTx Herr. unfold DecodeRawTransaction.
    by rewrite (bind_CallRPC_error _ _ _ _ _ Herr).
  - intros txid vout includeMempool Herr. unfold GetTxOut.
    by rewrite (bind_CallRPC_error _ _ _ _ _ Herr).
Qed.

(** ** The block fetch of the orchestrator *)

Lemma GetBlockWithPrevOut_trace hash trace :
  ∃ calls, (GetBlockWithPrevOut node unmarshalBlock hash trace).1
             = trace ++ getblockCall hash 3 :: calls ∧
           (length calls ≤ 1)%nat.
Proof.
  destruct (node trace (getblockCall hash 3)) as [raw|err] eqn:Hcall.
  - rewrite (GetBlockWithPrevOut_answered _ _ _ _ _ Hcall). exists [].
    split; [done|simpl; lia].
  - rewrite (GetBlockWithPrevOut_rejected _ _ _ _ _ Hcall).
    rewrite GetBlockVerbose_trace, <- app_assoc. exists [getblockCall hash 2].
    split; [done|simpl; lia].
Qed.

Lemma fetchBlock_calls_bound number trace :
  ∃ calls, (fetchBlock node unmarshalBlock unmarshalString number trace).1
             = trace ++ getblockhashCall number :: calls ∧
           (length calls ≤ 3)%nat ∧
           (∀ err, node trace (getblockhashCall number) = Err err →
                   calls = [] ∧
                   (fetchBlock node unmarshalBlock unmarshalString number trace).2
                     = Err err).
Proof.
  unfold fetchBlock, GetBlockHash, mbind, RPC_bind, CallRPC.
  fold (getblockhashCall number).
  destruct (node trace (getblockhashCall number)) as [raw|err] eqn:Hhash.
  2:{ exists []. split; [done|]. split; [simpl; lia|]. by intros ? [= <-]. }
  destruct (unmarshalString raw) as [hash|].
  2:{ exists []. split; [done|]. split; [simpl; lia|]. done. }
  unfold mret, RPC_ret, caseRPC.
  destruct (GetBlockWithPrevOut_trace hash (trace ++ [getblockhashCall number]))
    as (calls & Htrace & Hlen).
  destruct (GetBlockWithPrevOut node unmarshalBlock hash
              (trace ++ [getblockhashCall number])) as [t [bb|err]] eqn:Hprev;
    simpl in Htrace; subst t.
  - exists (getblockCall hash 3 :: calls). rewrite <- app_assoc.
    split; [done|]. split; [simpl; lia|done].
  - pose proof (GetBlockVerbose_trace node unmarshalBlock hash
                  ((trace ++ [getblockhashCall number]) ++ getblockCall hash 3 :: calls))
      as Hv.
    exists (getblockCall hash 3 :: calls ++ [getblockCall hash 2]).
    rewrite Hv, <- !app_assoc. simpl.
    split; [done|]. split; [rewrite length_app; simpl; lia|done].
Qed.

(** X15: one block fetch of the orchestrator issues [getblockhash] first
    and at most three [getblock] calls after it; when the hash call
    fails, nothing else is issued and its error is returned. *)
Theorem fetchBlock_call_budget number trace :
  ∃ calls, (fetchBlock node unmarshalBlock unmarshalString number trace).1
             = trace ++ getblockhashCall number :: calls ∧
           (length calls ≤ 3)%nat ∧
           (∀ err, node trace (getblockhashCall number) = Err err →
                   calls = [] ∧
                   (fetchBlock node unmarshalBlock unmarshalString number trace).2
                     = Err err).
Proof. apply fetchBlock_calls_bound. Qed.

(** X16: against a node whose answers do not depend on earlier calls, and
    which answers the hash call and the verbosity-2 [getblock] with
    decodable results, the block fetch asks for verbosity 3 right after
    the hash and succeeds whatever the node does there: it returns the
    verbosity-3 block when that call is answered with a decodable block,
    and the verbosity-2 block in every other case (verbosity 3 refused, or
    answered with something that does not decode); every call after the
    verbosity-3 one is a verbosity-2 [getblock]. *)
Theorem fetchBlock_falls_back answer number rawHash hash raw2 blk trace :
  stateless node answer →
  answer (getblockhashCall number) = Ok rawHash →
  unmarshalString rawHash = Some hash →
  answer (getblockCall hash 2) = Ok raw2 →
  unmarshalBlock raw2 = Some blk →
  (fetchBlock node unmarshalBlock unmarshalString number trace).2 =
    Ok (match answer (getblockCall hash 3) with
        | Ok raw3 =>
            match unmarshalBlock raw3 with
            | Some blk3 => blk3
            | None => blk
            end
        | Err _ => blk
        end) ∧
  ∃ calls,
    (fetchBlock node unmarshalBlock unmarshalString number trace).1
      = trace ++ getblockhashCall number :: getblockCall hash 3 :: calls ∧
    Forall (λ call, call = getblockCall hash 2) calls.
Proof.
  intros Hnode Hhash Hdec Hv2 Hblk.
  assert (Hverbose : ∀ t, GetBlockVerbose node unmarshalBlock hash t
                          = (t ++ [getblockCall hash 2], Ok blk)).
  { intros t. unfold GetBlockVerbose, mbind, RPC_bind, CallRPC.
    fold (getblockCall hash 2). by rewrite Hnode, Hv2, Hblk. }
  assert (Hstart :
    fetchBlock node unmarshalBlock unmarshalString number trace =
      match GetBlockWithPrevOut node unmarshalBlock hash
              (trace ++ [getblockhashCall number]) with
      | (trace', Ok bb) => (trace', Ok bb)
      | (trace', Err _) => GetBlockVerbose node unmarshalBlock hash trace'
      end).
  { unfold fetchBlock, GetBlockHash, mbind, RPC_bind, CallRPC.
    fold (getblockhashCall number). by rewrite Hnode, Hhash, Hdec. }
  destruct (fetchBlock node unmarshalBlock unmarshalString number trace)
    as [t r].
  cbn [fst snd].
  destruct (answer (getblockCall hash 3)) as [raw3|err] eqn:Hv3.
  - rewrite (GetBlockWithPrevOut_answered _ _ _ _ raw3) in Hstart
      by by rewrite Hnode.
    destruct (unmarshalBlock raw3) as [blk3|] eqn:Hb3.
    + injection Hstart as -> ->. split; [done|]. exists [].
      by rewrite <- app_assoc.
    + rewrite Hverbose in Hstart. injection Hstart as -> ->.
      split; [done|]. exists [getblockCall hash 2].
      rewrite <- !app_assoc. split; [done|]. by repeat constructor.
  - rewrite (GetBlockWithPrevOut_rejected _ _ _ _ err) in Hstart
      by by rewrite Hnode.
    rewrite Hverbose in Hstart. injection Hstart as -> ->.
    split; [done|]. exists [getblockCall hash 2].
    rewrite <- !app_assoc. split; [done|]. by repeat constructor.
Qed.

End ClientMethodFacts.

Lemma fetchBlock_falls_back_witness :
  (fetchBlock nodeSample unmarshalSample unmarshalSampleHash 800000 []).2 =
    Ok (match answerWithoutVerbosity3 (getblockCall "00ab" 3) with
        | Ok raw3 =>
            match unmarshalSample raw3 with
            | Some blk3 => blk3
            | None => sampleBlock
            end
        | Err _ => sampleBlock
        end) ∧
  ∃ calls,
    (fetchBlock nodeSample unmarshalSample unmarshalSampleHash 800000 []).1
      = [] ++ getblockhashCall 800000 :: getblockCall "00ab" 3 :: calls ∧
    Forall (λ call, call = getblockCall "00ab" 2) calls.
Proof.
  apply (fetchBlock_falls_back nodeSample unmarshalSample unmarshalSampleHash
           answerWithoutVerbosity3 800000 "hash-00ab" "00ab" "block-00ab"
           sampleBlock []).
  - intros trace call. reflexivity.
  - reflexivity.
  - reflexivity.
  - reflexivity.
  - reflexivity.
Defined.

(** ** Address codec *)

Section AddressCodecFacts.
Context (bech32_Decode : string → option (string * list byte)).
Context (bech32_ConvertBits : list byte → N → N → bool → option (list byte)).
Context (base58_Decode : string → list byte).
Context (sha256_Sum256 : list byte → vec byte 32).

Ltac elem_of_literal :=
  repeat first [apply list_elem_of_here | apply list_elem_of_further].

Lemma checksum_loop (checksum expected : list N) :
  length checksum = 4%nat → length expected = 4%nat →
  forallb (λ i, bool_decide (checksum !! i = expected !! i)) (seq 0 4) = true
  ↔ checksum = expected.
Proof.
  intros Hc He.
  destruct checksum as [|c0 [|c1 [|c2 [|c3 [|? ?]]]]]; try done.
  destruct expected as [|e0 [|e1 [|e2 [|e3 [|? ?]]]]]; try done.
  simpl. rewrite !andb_true_iff, !bool_decide_eq_true. split.
  - intros ([= ->] & [= ->] & [= ->] & [= ->] & _). done.
  - intros [= -> -> -> ->]. done.
Qed.

Lemma checksumLoop_in_range (checksum expected : list N) (indices : list nat) :
  length checksum = 4%nat → length expected = 4%nat →
  Forall (λ i, i < 4)%nat indices →
  checksumLoop checksum expected indices =
    Returned (forallb (λ i, bool_decide (checksum !! i = expected !! i)) indices).
Proof.
  intros Hc He. induction 1 as [|i indices Hi _ IH]; [done|].
  cbn [checksumLoop forallb]. unfold indexSlice.
  destruct (lookup_lt_is_Some_2 checksum i) as [c Hci]; [lia|].
  destruct (lookup_lt_is_Some_2 expected i) as [e Hei]; [lia|].
  rewrite Hci, Hei, IH.
  destruct (decide (c = e)) as [->|Hne].
  - rewrite (bool_decide_eq_false_2 (e ≠ e)) by (intros Hn; by apply Hn).
    by rewrite (bool_decide_eq_true_2 (Some e = Some e)).
  - rewrite (bool_decide_eq_true_2 (c ≠ e)) by done.
    by rewrite (bool_decide_eq_false_2 (Some c = Some e)) by congruence.
Qed.

(** X17: [IsValidBase58Address] never panics: with every index and slice
    expression through the operations that panic out of range it returns,
    and what it returns is [true] exactly when [addr] decodes to 25 bytes:
    a version byte accepted on the network (0x00 or 0x05 on mainnet, 0x6f
    or 0xc4 on testnet), 20 more bytes, and a 4-byte checksum equal to the
    first four bytes of the double SHA-256 of the first 21 bytes. *)
Theorem IsValidBase58Address_iff addr isTestnet :
  IsValidBase58Address_run base58_Decode sha256_Sum256 addr isTestnet
    = Returned (IsValidBase58Address base58_Decode sha256_Sum256 addr isTestnet) ∧
  (IsValidBase58Address base58_Decode sha256_Sum256 addr isTestnet = true ↔
   ∃ version body checksum,
     base58_Decode addr = version :: body ++ checksum ∧
     length body = 20%nat ∧ length checksum = 4%nat ∧
     version ∈ base58Versions isTestnet ∧
     checksum = take 4 (vec_to_list
                  (sha256_Sum256 (vec_to_list (sha256_Sum256 (version :: body)))))).
Proof.
  split.
  { unfold IsValidBase58Address_run, IsValidBase58Address.
    case_bool_decide as Hlen; [done|].
    assert (Hlen' : length (base58_Decode addr) = 25%nat) by lia. clear Hlen.
    destruct (base58_Decode addr) as [|version rest] eqn:Hdecoded; [done|].
    unfold indexSlice, sliceTo, sliceFrom. cbn [lookup list_lookup head default].
    rewrite Hlen'.
    rewrite (bool_decide_eq_true_2 (21 ≤ 25)%nat) by lia.
    unfold mbind, run_bind. cbv beta iota.
    destruct (negb _); [done|].
    rewrite length_vec_to_list.
    rewrite (bool_decide_eq_true_2 (4 ≤ 32)%nat) by lia.
    apply checksumLoop_in_range.
    - rewrite length_drop. lia.
    - rewrite length_take, length_vec_to_list. lia.
    - repeat constructor; lia. }
  unfold IsValidBase58Address.
  set (expected := λ payload,
         take 4 (vec_to_list (sha256_Sum256 (vec_to_list (sha256_Sum256 payload))))).
  assert (Hexp : ∀ payload, length (expected payload) = 4%nat).
  { intros payload. unfold expected.
    rewrite length_take, length_vec_to_list. lia. }
  assert (Hver : ∀ version,
            (if isTestnet
             then bool_decide (version = TestnetP2PKHPrefix) ||
                  bool_decide (version = TestnetP2SHPrefix)
             else bool_decide (version = MainnetP2PKHPrefix) ||
                  bool_decide (version = MainnetP2SHPrefix)) = true
            ↔ version ∈ base58Versions isTestnet).
  { intros version. unfold base58Versions.
    destruct isTestnet; rewrite orb_true_iff, !bool_decide_eq_true,
      !elem_of_cons, elem_of_nil; tauto. }
  case_bool_decide as Hlen.
  { split; [done|]. intros (v & body & cs & Hdec & Hb & Hc & _).
    exfalso. apply Hlen. rewrite Hdec. simpl. rewrite length_app. lia. }
  destruct (base58_Decode addr) as [|version rest] eqn:Hdec; [done|].
  simpl in Hlen. cbn [head from_option id].
  assert (Hsplit : version :: rest = version :: take 20 rest ++ drop 20 rest)
    by by rewrite take_drop.
  assert (Hpay : take 21 (version :: rest) = version :: take 20 rest) by done.
  assert (Hcs : drop 21 (version :: rest) = drop 20 rest) by done.
  rewrite Hpay, Hcs. fold (expected (version :: take 20 rest)).
  assert (Hl20 : length (take 20 rest) = 20%nat) by (rewrite length_take; lia).
  assert (Hl4 : length (drop 20 rest) = 4%nat) by (rewrite length_drop; lia).
  split.
  - intros Hok. destruct (negb _) eqn:Hv in Hok; [done|].
    apply negb_false_iff, Hver in Hv.
    apply checksum_loop in Hok; [|done|apply Hexp].
    exists version, (take 20 rest), (drop 20 rest). by rewrite take_drop.
  - intros (v & body & cs & [= <- Hrest] & Hb & Hc & Hv & Hsum).
    assert (take 20 rest = body) as Hbody.
    { rewrite Hrest, take_app_length'; done. }
    assert (drop 20 rest = cs) as Hdrop.
    { rewrite Hrest, drop_app_length'; done. }
    rewrite Hbody, Hdrop. apply Hver in Hv. rewrite Hv. cbn [negb].
    apply checksum_loop; [done|apply Hexp|done].
Qed.

Lemma IsValidBech32Address_data addr isTestnet :
  IsValidBech32Address bech32_Decode bech32_ConvertBits addr isTestnet = true →
  ∃ hrp version payload program,
    bech32_Decode addr = Some (hrp, version :: payload) ∧
    hrp = (if isTestnet then TestnetBech32HRP else MainnetBech32HRP) ∧
    bech32_ConvertBits payload 5 8 false = Some program ∧
    (version = 0%N → length program = 20%nat ∨ length program = 32%nat) ∧
    (version = 1%N → length program = 32%nat).
Proof.
  unfold IsValidBech32Address.
  destruct (bech32_Decode addr) as [[hrp data]|]; [|done].
  case_bool_decide as Hhrp; [done|].
  destruct data as [|version payload]; [done|].
  rewrite bool_decide_eq_false_2 by done. simpl. rewrite drop_0.
  destruct (bech32_ConvertBits payload 5 8 false) as [program|] eqn:Hconv; [|done].
  intros Hok. exists hrp, version, payload, program.
  split; [done|]. split; [exact Hhrp|]. split; [done|]. split.
  - intros ->. rewrite bool_decide_eq_true_2 in Hok by done.
    destruct (decide (length program = 20%nat)); [by left|].
    destruct (decide (length program = 32%nat)); [by right|].
    rewrite (bool_decide_eq_true_2 (length program ≠ 20%nat)) in Hok by done.
    by rewrite (bool_decide_eq_true_2 (length program ≠ 32%nat)) in Hok by done.
  - intros ->. rewrite (bool_decide_eq_false_2 (1%N = 0%N)) in Hok by done.
    rewrite (bool_decide_eq_true_2 (1%N = 1%N)) in Hok by done.
    destruct (decide (length program = 32%nat)); [done|].
    by rewrite (bool_decide_eq_true_2 (length program ≠ 32%nat)) in Hok by done.
Qed.

Lemma detectBase58_kinds addr isTestnet :
  detectBase58 base58_Decode addr isTestnet
    ∈ [AddressTypeP2PKH; AddressTypeP2SH; AddressTypeUnknown].
Proof.
  unfold detectBase58. repeat case_bool_decide; destruct isTestnet;
    repeat case_bool_decide; elem_of_literal.
Qed.

Lemma DetectAddressType_bech32_valid addr isTestnet :
  (String.prefix "bc1" addr || String.prefix "tb1" addr) = true →
  IsValidBech32Address bech32_Decode bech32_ConvertBits addr isTestnet = true →
  DetectAddressType bech32_Decode bech32_ConvertBits base58_Decode addr isTestnet
    ∈ [AddressTypeP2WPKH; AddressTypeP2WSH; AddressTypeP2TR;
       AddressTypeWitnessUnknown].
Proof.
  intros Hpre Hok.
  destruct (IsValidBech32Address_data addr isTestnet Hok)
    as (hrp & version & payload & program & Hdec & Hhrp & Hconv & H0 & H1).
  unfold DetectAddressType. rewrite Hpre, Hdec.
  rewrite bool_decide_eq_false_2 by (intros ->; by destruct isTestnet).
  rewrite (bool_decide_eq_false_2 (hrp ≠ _)) by (intros ?; done).
  rewrite (bool_decide_eq_false_2 (length (version :: payload) = 0%nat)) by done.
  simpl. rewrite drop_0, Hconv.
  case_bool_decide as Hv0.
  - destruct (H0 Hv0) as [Hl|Hl]; rewrite Hl; simpl; elem_of_literal.
  - case_bool_decide as Hv1; [|elem_of_literal].
    rewrite (H1 Hv1). simpl. elem_of_literal.
Qed.

(** X18: [DetectAddressType] answers with a witness type (p2wpkh, p2wsh,
    p2tr or witness_unknown) exactly for the addresses with a [bc1] or
    [tb1] prefix that [IsValidBech32Address] accepts on that network. *)
Theorem DetectAddressType_witness_iff addr isTestnet :
  DetectAddressType bech32_Decode bech32_ConvertBits base58_Decode addr isTestnet
    ∈ [AddressTypeP2WPKH; AddressTypeP2WSH; AddressTypeP2TR;
       AddressTypeWitnessUnknown]
  ↔ (String.prefix "bc1" addr || String.prefix "tb1" addr) = true ∧
    IsValidBech32Address bech32_Decode bech32_ConvertBits addr isTestnet = true.
Proof.
  split; [|intros [??]; by apply DetectAddressType_bech32_valid].
  assert (Hb58 : detectBase58 base58_Decode addr isTestnet
                   ∉ [AddressTypeP2WPKH; AddressTypeP2WSH; AddressTypeP2TR;
                      AddressTypeWitnessUnknown]).
  { intros Hin. pose proof (detectBase58_kinds addr isTestnet) as Hk.
    revert Hin Hk. generalize (detectBase58 base58_Decode addr isTestnet).
    intros s. rewrite !elem_of_cons, !elem_of_nil.
    unfold AddressTypeP2WPKH, AddressTypeP2WSH, AddressTypeP2TR,
      AddressTypeWitnessUnknown, AddressTypeP2PKH, AddressTypeP2SH,
      AddressTypeUnknown.
    intros [->|[->|[->|[->|[]]]]] [?|[?|[?|[]]]]; done. }
  assert (Hunk : AddressTypeUnknown
                   ∉ [AddressTypeP2WPKH; AddressTypeP2WSH; AddressTypeP2TR;
                      AddressTypeWitnessUnknown]).
  { rewrite !elem_of_cons, elem_of_nil. intros [?|[?|[?|[?|[]]]]]; done. }
  unfold DetectAddressType, IsValidBech32Address.
  case_bool_decide as Hempty; [done|].
  destruct (String.prefix "bc1" addr || String.prefix "tb1" addr); [|done].
  destruct (bech32_Decode addr) as [[hrp data]|]; [|done].
  destruct (decide (hrp = if isTestnet then TestnetBech32HRP else MainnetBech32HRP))
    as [Hhrp|Hhrp].
  2:{ rewrite (bool_decide_eq_true_2 (hrp ≠ _)) by done. done. }
  rewrite (bool_decide_eq_false_2 (hrp ≠ _)) by (intros ?; done). cbn [orb].
  destruct data as [|version payload]; [done|].
  rewrite (bool_decide_eq_false_2 (length (version :: payload) = 0%nat)) by done.
  simpl. rewrite drop_0.
  destruct (bech32_ConvertBits payload 5 8 false) as [program|]; [|done].
  destruct (decide (version = 0%N)) as [->|Hv0].
  - rewrite (bool_decide_eq_true_2 (0%N = 0%N)) by done.
    rewrite (bool_decide_eq_false_2 (0%N = 1%N)) by done.
    destruct (decide (length program = 20%nat)) as [Hl|Hl20].
    { rewrite Hl. done. }
    rewrite (bool_decide_eq_false_2 (length program = 20%nat)) by done.
    destruct (decide (length program = 32%nat)) as [Hl|Hl32].
    { rewrite Hl. done. }
    rewrite (bool_decide_eq_false_2 (length program = 32%nat)) by done. done.
  - rewrite (bool_decide_eq_false_2 (version = 0%N)) by done.
    destruct (decide (version = 1%N)) as [->|Hv1].
    + rewrite (bool_decide_eq_true_2 (1%N = 1%N)) by done.
      destruct (decide (length program = 32%nat)) as [Hl|Hl32].
      { rewrite Hl. done. }
      rewrite (bool_decide_eq_false_2 (length program = 32%nat)) by done. done.
    + rewrite (bool_decide_eq_false_2 (version = 1%N)) by done. done.
Qed.

Lemma detectBase58_valid addr isTestnet :
  IsValidBase58Address base58_Decode sha256_Sum256 addr isTestnet = true →
  detectBase58 base58_Decode addr isTestnet ∈ [AddressTypeP2PKH; AddressTypeP2SH].
Proof.
  unfold IsValidBase58Address, detectBase58.
  case_bool_decide as Hlen; [done|].
  rewrite (bool_decide_eq_true_2 _ Hlen).
  destruct isTestnet.
  - destruct (bool_decide (_ = TestnetP2PKHPrefix)); [intros _; elem_of_literal|].
    destruct (bool_decide (_ = TestnetP2SHPrefix)); [intros _; elem_of_literal|].
    by simpl.
  - destruct (bool_decide (_ = MainnetP2PKHPrefix)); [intros _; elem_of_literal|].
    destruct (bool_decide (_ = MainnetP2SHPrefix)); [intros _; elem_of_literal|].
    by simpl.
Qed.

(** X19: every address [IsValidAddress] accepts on a network is
    classified by [DetectAddressType] on that network as p2pkh, p2sh,
    p2wpkh, p2wsh, p2tr or witness_unknown, never as unknown. *)
Theorem IsValidAddress_classified addr isTestnet :
  IsValidAddress bech32_Decode bech32_ConvertBits base58_Decode sha256_Sum256
    addr isTestnet = true →
  DetectAddressType bech32_Decode bech32_ConvertBits base58_Decode addr isTestnet
    ∈ [AddressTypeP2PKH; AddressTypeP2SH; AddressTypeP2WPKH; AddressTypeP2WSH;
       AddressTypeP2TR; AddressTypeWitnessUnknown] ∧
  DetectAddressType bech32_Decode bech32_ConvertBits base58_Decode addr isTestnet
    ≠ AddressTypeUnknown.
Proof.
  intros Hvalid.
  assert (Hin : DetectAddressType bech32_Decode bech32_ConvertBits base58_Decode
                  addr isTestnet
                ∈ [AddressTypeP2PKH; AddressTypeP2SH; AddressTypeP2WPKH;
                   AddressTypeP2WSH; AddressTypeP2TR; AddressTypeWitnessUnknown]).
  { unfold IsValidAddress in Hvalid.
    case_bool_decide as Hempty; [done|].
    destruct (String.prefix "bc1" addr || String.prefix "tb1" addr) eqn:Hpre.
    - pose proof (DetectAddressType_bech32_valid addr isTestnet Hpre Hvalid) as H.
      rewrite !elem_of_cons in H. rewrite !elem_of_cons. tauto.
    - pose proof (detectBase58_valid addr isTestnet Hvalid) as H.
      unfold DetectAddressType. rewrite bool_decide_eq_false_2 by done.
      rewrite Hpre. rewrite !elem_of_cons in H. rewrite !elem_of_cons. tauto. }
  split; [done|]. intros Heq. rewrite Heq in Hin.
  rewrite !elem_of_cons, elem_of_nil in Hin.
  destruct Hin as [?|[?|[?|[?|[?|[?|[]]]]]]]; done.
Qed.

End AddressCodecFacts.

Section NormalizeFacts.
Context (bech32_Decode : string → option (string * list byte)).
Context (bech32_ConvertBits : list byte → N → N → bool → option (list byte)).
Context (base58_Decode : string → list byte).
Context (sha256_Sum256 : list byte → vec byte 32).
Context (TrimSpace : string → string).

(** X20: [NormalizeAddress] succeeds exactly when the trimmed address is
    valid on mainnet or on testnet, and then returns the trimmed address;
    otherwise it returns the empty string with an error. *)
Theorem NormalizeAddress_contract addr :
  (IsValidAddress bech32_Decode bech32_ConvertBits base58_Decode sha256_Sum256
     (TrimSpace addr) false = true ∨
   IsValidAddress bech32_Decode bech32_ConvertBits base58_Decode sha256_Sum256
     (TrimSpace addr) true = true →
   NormalizeAddress bech32_Decode bech32_ConvertBits base58_Decode sha256_Sum256
     TrimSpace addr = (TrimSpace addr, None)) ∧
  (IsValidAddress bech32_Decode bech32_ConvertBits base58_Decode sha256_Sum256
     (TrimSpace addr) false = false ∧
   IsValidAddress bech32_Decode bech32_ConvertBits base58_Decode sha256_Sum256
     (TrimSpace addr) true = false →
   ∃ err, NormalizeAddress bech32_Decode bech32_ConvertBits base58_Decode
            sha256_Sum256 TrimSpace addr = ("", Some err)).
Proof.
  unfold NormalizeAddress. split.
  - intros Hvalid.
    assert (Hne : TrimSpace addr ≠ "").
    { intros Hempty. rewrite Hempty in Hvalid. unfold IsValidAddress in Hvalid.
      rewrite bool_decide_eq_true_2 in Hvalid by done. by destruct Hvalid. }
    rewrite bool_decide_eq_false_2 by done.
    destruct Hvalid as [-> | ->]; first [done | by rewrite andb_false_r].
  - intros [-> ->]. case_bool_decide; by eexists.
Qed.

End NormalizeFacts.

Section ScriptTypeFacts.
Context (ToLower : string → string).

(** X21: [ScriptTypeToAddressType] agrees with [IsNullDataOutput] and
    [IsMultisigOutput] on a script type that lower-casing leaves as it
    is, and it never answers [witness_v1_taproot]: a taproot script type
    is p2tr. *)
Theorem ScriptTypeToAddressType_consistent spk :
  ToLower (Spk_Type spk) = Spk_Type spk →
  (IsNullDataOutput spk = true →
     ScriptTypeToAddressType ToLower (Spk_Type spk) = AddressTypeNullData) ∧
  (IsMultisigOutput spk = true →
     ScriptTypeToAddressType ToLower (Spk_Type spk) = AddressTypeMultisig) ∧
  ScriptTypeToAddressType ToLower (Spk_Type spk) ≠ AddressTypeWitnessV1.
Proof.
  intros Hlow. unfold ScriptTypeToAddressType, IsNullDataOutput, IsMultisigOutput.
  rewrite Hlow. split; [|split].
  - intros [H|H]%orb_true_iff; apply bool_decide_eq_true in H; by rewrite H.
  - intros H%bool_decide_eq_true. by rewrite H.
  - repeat case_bool_decide; done.
Qed.

End ScriptTypeFacts.

Lemma IsValidAddress_classified_witness :
  DetectAddressType sampleBech32Decode sampleConvertBits sampleBase58Decode
    "bc1qexample" false
    ∈ [AddressTypeP2PKH; AddressTypeP2SH; AddressTypeP2WPKH; AddressTypeP2WSH;
       AddressTypeP2TR; AddressTypeWitnessUnknown] ∧
  DetectAddressType sampleBech32Decode sampleConvertBits sampleBase58Decode
    "bc1qexample" false
    ≠ AddressTypeUnknown.
Proof.
  apply (IsValidAddress_classified sampleBech32Decode sampleConvertBits
           sampleBase58Decode sampleSum256 "bc1qexample" false).
  reflexivity.
Defined.

Lemma ScriptTypeToAddressType_consistent_witness :
  (IsNullDataOutput (mkScriptPubKey "" "" 0 "nulldata" "" []) = true →
     ScriptTypeToAddressType sampleIdentity "nulldata" = AddressTypeNullData) ∧
  (IsMultisigOutput (mkScriptPubKey "" "" 0 "nulldata" "" []) = true →
     ScriptTypeToAddressType sampleIdentity "nulldata" = AddressTypeMultisig) ∧
  ScriptTypeToAddressType sampleIdentity "nulldata" ≠ AddressTypeWitnessV1.
Proof.
  apply (ScriptTypeToAddressType_consistent sampleIdentity
           (mkScriptPubKey "" "" 0 "nulldata" "" [])).
  reflexivity.
Defined.

(** ** Byte reversal *)

Lemma reverseLoop_middle fuel (pre mid post : list N) :
  (length mid < fuel)%nat →
  reverseLoop fuel (Z.of_nat (length pre))
    (Z.of_nat (length pre + length mid) - 1) (pre ++ mid ++ post)
  = Some (Returned (pre ++ reverse mid ++ post)).
Proof.
  revert pre mid post. induction fuel as [|fuel IH]; intros pre mid post Hfuel; [lia|].
  cbn [reverseLoop].
  destruct mid as [|x mid].
  { rewrite bool_decide_eq_false_2 by (simpl; lia). done. }
  destruct (decide (mid = [])) as [->|Hne].
  { rewrite bool_decide_eq_false_2 by (simpl; lia). done. }
  destruct (exists_last Hne) as (m & y & ->).
  assert (Hlen : length (x :: m ++ [y]) = S (S (length m)))
    by (simpl; rewrite length_app; simpl; lia).
  rewrite Hlen in Hfuel |- *.
  rewrite bool_decide_eq_true_2 by lia.
  unfold indexInt. rewrite !bool_decide_eq_false_2 by lia.
  assert (Hj : Z.to_nat (Z.of_nat (length pre + S (S (length m))) - 1)
               = length (pre ++ x :: m)).
  { rewrite length_app. simpl. lia. }
  rewrite Hj, Nat2Z.id.
  change ((x :: m ++ [y]) ++ post) with (x :: (m ++ [y]) ++ post).
  assert (Hdata : pre ++ x :: (m ++ [y]) ++ post = (pre ++ x :: m) ++ y :: post).
  { by rewrite <- !app_assoc. }
  unfold indexSlice.
  rewrite Hdata at 1. rewrite list_lookup_middle by done.
  rewrite (list_lookup_middle pre _ x) by done.
  assert (Hswap : <[length (pre ++ x :: m) := x]>
                    (<[length pre := y]> (pre ++ x :: (m ++ [y]) ++ post))
                  = (pre ++ [y]) ++ m ++ (x :: post)).
  { rewrite (insert_app_r_alt pre) by lia. rewrite Nat.sub_diag. simpl.
    replace (pre ++ y :: (m ++ [y]) ++ post) with ((pre ++ y :: m) ++ y :: post)
      by (by rewrite <- !app_assoc).
    rewrite (insert_app_r_alt (pre ++ y :: m)) by (rewrite !length_app; simpl; lia).
    replace (length (pre ++ x :: m) - length (pre ++ y :: m))%nat with 0%nat
      by (rewrite !length_app; simpl; lia).
    simpl. by rewrite <- !app_assoc. }
  rewrite Hswap.
  replace (Z.of_nat (length pre) + 1)%Z with (Z.of_nat (length (pre ++ [y])))
    by (rewrite length_app; simpl; lia).
  replace (Z.of_nat (length pre + S (S (length m))) - 1 - 1)%Z
    with (Z.of_nat (length (pre ++ [y]) + length m) - 1)%Z
    by (rewrite !length_app; simpl; lia).
  rewrite IH by lia.
  do 2 f_equal. rewrite reverse_cons, reverse_snoc. simpl.
  by rewrite <- !app_assoc.
Qed.

Lemma reverseLoop_reverse (data : list N) :
  reverseLoop (S (length data)) 0 (Z.of_nat (length data) - 1) data
    = Some (Returned (reverse data)).
Proof.
  pose proof (reverseLoop_middle (S (length data)) [] data []) as H.
  rewrite !app_nil_r in H. simpl in H. apply H. lia.
Qed.

Section HexFacts.
Context (hex_DecodeString : string → option (list byte)).
Context (hex_EncodeToString : list byte → string).

(** X22: the two-index swap loop of [ReverseHex] ends, never indexes out
    of range and leaves the bytes in reverse order: a string that decodes
    to [data] gives the encoding of [reverse data], and a string that does
    not decode is returned as it is. *)
Theorem ReverseHex_reverses s :
  (∀ data, hex_DecodeString s = Some data →
     ReverseHex hex_DecodeString hex_EncodeToString (S (length data)) s
       = Some (Returned (hex_EncodeToString (reverse data)))) ∧
  (hex_DecodeString s = None →
     ∀ fuel, ReverseHex hex_DecodeString hex_EncodeToString fuel s
               = Some (Returned s)).
Proof.
  unfold ReverseHex. split.
  - intros data ->. by rewrite reverseLoop_reverse.
  - by intros ->.
Qed.

(** X23: reversing twice gives back the bytes: if [s] decodes to [data]
    and the encoding of the reversed bytes decodes to them again, then
    [ReverseHex] of [ReverseHex] of [s] is the encoding of [data]. *)
Theorem ReverseHex_involutive s data :
  hex_DecodeString s = Some data →
  hex_DecodeString (hex_EncodeToString (reverse data)) = Some (reverse data) →
  ReverseHex hex_DecodeString hex_EncodeToString (S (length data)) s
    = Some (Returned (hex_EncodeToString (reverse data))) ∧
  ReverseHex hex_DecodeString hex_EncodeToString (S (length data))
    (hex_EncodeToString (reverse data))
    = Some (Returned (hex_EncodeToString data)).
Proof.
  intros Hs Hround. unfold ReverseHex. rewrite Hs, Hround.
  rewrite reverseLoop_reverse. split; [done|].
  pose proof (reverseLoop_reverse (reverse data)) as Hback.
  rewrite length_reverse in Hback. rewrite length_reverse, Hback.
  by rewrite reverse_involutive.
Qed.

End HexFacts.

Lemma ReverseHex_involutive_witness :
  ReverseHex sampleHexDecode sampleHexEncode 3 "abcd" = Some (Returned "cdab") ∧
  ReverseHex sampleHexDecode sampleHexEncode 3 "cdab" = Some (Returned "abcd").
Proof.
  apply (ReverseHex_involutive sampleHexDecode sampleHexEncode "abcd"
           [171%N; 205%N]).
  - reflexivity.
  - reflexivity.
Defined.

(** ** Blocks without prevOut data *)

Lemma ExtractTransfers_zero_fee tx order networkID blockNum timestamp :
  Forall (λ t, types.TxFee t = 0%Qc)
         (ExtractTransfers order tx networkID blockNum timestamp 0%Qc).
Proof.
  destruct (IsCoinbase tx) eqn:Hcb.
  - unfold ExtractTransfers. rewrite Hcb, coinbaseTransfers_bind.
    apply Forall_forall. intros t Hin.
    apply list_elem_of_bind in Hin as (vout & Hin & _).
    case_bool_decide; [|by apply elem_of_nil in Hin].
    by apply list_elem_of_fmap in Hin as (addr & -> & _).
  - pose proof (ExtractTransfers_regular_shape tx order networkID blockNum
                  timestamp 0%Qc Hcb) as Hshape.
    apply Forall_forall. intros t Hin. apply list_elem_of_lookup in Hin as [i Hi].
    destruct (Forall2_lookup_l _ _ _ _ _ Hshape Hi) as (entry & _ & Ht).
    by destruct Ht as [->| ->].
Qed.

Lemma HasPrevOutData_false_fee tx :
  HasPrevOutData tx = false → CalculateFee tx = 0%Qc.
Proof.
  intros Hno. unfold CalculateFee. rewrite Hno. by destruct (IsCoinbase tx).
Qed.

(** X24: when [blockHasPrevOutData] is false, the case in which the
    orchestrator asks for enrichment, every transaction of the block has
    fee zero and every transfer [processBlock] would emit carries no
    fee. *)
Theorem blockHasPrevOutData_false_no_fees networkId rangeOrders blk :
  blockHasPrevOutData (Some blk) = false →
  Forall (λ tx, CalculateFee tx = 0%Qc) (Block_Tx blk) ∧
  ∃ nb, processBlock networkId rangeOrders (Some blk) = Some nb ∧
        Forall (λ t, types.TxFee t = 0%Qc) (NB_Transactions nb).
Proof.
  intros Hno. simpl in Hno.
  assert (Hfees : Forall (λ tx, CalculateFee tx = 0%Qc) (Block_Tx blk)).
  { apply Forall_forall. intros tx Hin. apply HasPrevOutData_false_fee.
    destruct (HasPrevOutData tx) eqn:Hp; [|done].
    assert (existsb HasPrevOutData (Block_Tx blk) = true); [|congruence].
    apply existsb_exists. exists tx. split; [by apply list_elem_of_In|done]. }
  split; [done|]. eexists. split; [reflexivity|]. cbn.
  rewrite processTxs_concat. cbn [app].
  apply Forall_concat_imap. intros k tx Hk.
  rewrite Forall_forall in Hfees. rewrite (Hfees tx) by by eapply list_elem_of_lookup_2.
  apply ExtractTransfers_zero_fee.
Qed.

Lemma blockHasPrevOutData_false_no_fees_witness :
  Forall (λ tx, CalculateFee tx = 0%Qc) (Block_Tx blockUnresolved) ∧
  ∃ nb, processBlock "bitcoin" sampleOrders (Some blockUnresolved) = Some nb ∧
        Forall (λ t, types.TxFee t = 0%Qc) (NB_Transactions nb).
Proof.
  apply (blockHasPrevOutData_false_no_fees "bitcoin" sampleOrders blockUnresolved).
  reflexivity.
Defined.

